(** * Visual regression engine: clustering, significance and facade

    A shallow embedding of the JavaScript sources
    [src/core/ClusterAnalyzer.js], [src/core/ImageProcessor.js],
    [src/core/ImageComparator.js], [src/utils/errors.js] and [src/index.js],
    of the cluster search of [index.ts] and of the argument parser of
    [bin/cli.js], and the properties proved about them. *)

From Stdlib Require Import ZArith QArith Qround.
From stdpp Require Import base gmap sets list strings.
From stdpp Require Import sorting.
From Equations Require Import Equations.

#[local] Set Warnings "-clear-no-such-hyp,-register-all".
Local Open Scope Z_scope.

(** ** JavaScript numbers

    The code divides, multiplies, rounds and compares IEEE doubles.  The
    development is parametric in those operations: [JSNumber] lists the ones
    the sources use, together with the two facts about them that the proofs
    rely on.  Both hold of doubles; [QNumber] below is an exact instance used
    to run the definitions. *)

Class JSNumber := {
  num : Type;
  (** a numeric literal, or an integer held in a number *)
  ofQ : Q → num;
  (** [undefined] read as a number *)
  nan : num;
  ndiv : num → num → num;          (* a / b *)
  nmul : num → num → num;          (* a * b *)
  nmin : num → num → num;          (* Math.min(a, b) *)
  nceil : num → Z;                 (* Math.ceil(a), used as a pixel count *)
  ngt : num → num → bool;          (* a > b *)
  nle : num → num → bool;          (* a <= b *)
  nge : num → num → bool;          (* a >= b *)
  nseq : num → num → bool;         (* a === b *)
  truthy : num → bool;             (* !!a *)
  nge_nle_trans a b c :
    nge a b = true → nle c b = true → nge a c = true;
  ndiv_one w h :
    0 < w < 2 ^ 53 → 0 < h < 2 ^ 53 →
    nseq (ndiv (ofQ (inject_Z w)) (ofQ (inject_Z h))) (ofQ 1) = (w =? h)
}.

Definition ofZ `{JSNumber} (z : Z) : num := ofQ (inject_Z z).

(** A numeric option as the arithmetic and the comparisons see it: a missing
    key reads [undefined], which they convert to [NaN]. *)
Definition getNum `{JSNumber} (o : option num) : num := default nan o.

(** [o || d] on a numeric option. *)
Definition orElse `{JSNumber} (o : option num) (d : num) : num :=
  match o with
  | Some v => if truthy v then v else d
  | None => d
  end.

(** ** Options objects

    An options object is a record of its nine keys; a field is [None] when
    the object does not have the key. *)

Module Options.
Section WithNumber.
Context `{JSNumber}.

Record t := {
  threshold : option num;
  includeAA : option bool;
  alpha : option num;
  maxSide : option num;
  backgroundColor : option (list Z);
  minClusterSize : option num;
  maxTotalDiffPixels : option num;
  maxSignificantClusters : option num;
  lineShiftThreshold : option num
}.

Definition empty : t :=
  {| threshold := None; includeAA := None; alpha := None; maxSide := None;
     backgroundColor := None; minClusterSize := None;
     maxTotalDiffPixels := None; maxSignificantClusters := None;
     lineShiftThreshold := None |}.

(** One key of [{ ...a, ...b }]: the later object wins where it has the key. *)
Definition over {A} (a b : option A) : option A :=
  match b with
  | Some v => Some v
  | None => a
  end.

(** [{ ...a, ...b }] *)
Definition spread (a b : t) : t :=
  {| threshold := over (threshold a) (threshold b);
     includeAA := over (includeAA a) (includeAA b);
     alpha := over (alpha a) (alpha b);
     maxSide := over (maxSide a) (maxSide b);
     backgroundColor := over (backgroundColor a) (backgroundColor b);
     minClusterSize := over (minClusterSize a) (minClusterSize b);
     maxTotalDiffPixels := over (maxTotalDiffPixels a) (maxTotalDiffPixels b);
     maxSignificantClusters :=
       over (maxSignificantClusters a) (maxSignificantClusters b);
     lineShiftThreshold := over (lineShiftThreshold a) (lineShiftThreshold b) |}.

End WithNumber.
Arguments t {_}.
End Options.

(** ** Errors ([src/utils/errors.js]) *)

Module JSError.
Inductive t := Make (name message : string) (cause : option t).

Definition name (e : t) : string := let 'Make n _ _ := e in n.
Definition message (e : t) : string := let 'Make _ m _ := e in m.
Definition cause (e : t) : option t := let 'Make _ _ c := e in c.
End JSError.

(** [new Error(message)], the [TypeError] of a property read on [null] or
    [undefined], and the canvas API's [IndexSizeError]. *)
Definition Error (message : string) : JSError.t :=
  JSError.Make "Error" message None.
Definition TypeError (message : string) : JSError.t :=
  JSError.Make "TypeError" message None.

Definition IndexSizeError (message : string) : JSError.t :=
  JSError.Make "IndexSizeError" message None.

Definition ValidationError (message : string) : JSError.t :=
  JSError.Make "ValidationError" message None.

Definition ComparisonError (message : string) (cause : JSError.t) : JSError.t :=
  JSError.Make "ComparisonError" message (Some cause).

(** A call either throws or returns: [inl] is the thrown error. *)
#[export] Instance throws_bind : MBind (sum JSError.t) :=
  λ A B f m, match m with inl e => inl e | inr a => f a end.

(** ** Pixel buffers

    A [Uint8ClampedArray] is a list of byte values; reading past either end
    gives [undefined], here [None]. *)

Abbreviation Buffer := (list Z).

Definition readByte (buffer : Buffer) (pos : Z) : option Z :=
  if pos <? 0 then None else buffer !! Z.to_nat pos.

(** [a === b] for a buffer read [a] and a byte literal [b]. *)
Definition byteIs (a : option Z) (b : Z) : bool :=
  match a with
  | Some v => v =? b
  | None => false
  end.

(** ** Images and the external libraries *)

Module Canvas.
Record t := { width : Z; height : Z; data : Buffer }.
End Canvas.

Module ImageData.
Record t := { data : Buffer; width : Z; height : Z }.
End ImageData.

(** What a caller may hand in as an image.  An image argument is an object
    or is absent: the falsy values other than [null] and [undefined] (0, the
    empty string, [false]) are not among the inputs. *)
Inductive ImageInput :=
  | Missing                          (* null or undefined *)
  | ACanvas (canvas : Canvas.t)      (* has [getContext] *)
  | AnImageData (img : ImageData.t)  (* has [data], [width], [height] *)
  | ABuffer (bytes : list Z)         (* [Buffer.isBuffer] *)
  | Other.                           (* any other truthy value *)

Module PixelmatchOptions.
Section WithNumber.
Context `{JSNumber}.
Record t := {
  threshold : option num;
  includeAA : option bool;
  alpha : option num
}.
End WithNumber.
Arguments t {_}.
End PixelmatchOptions.

(** The [canvas] and [pixelmatch] packages are not part of the repository.
    Of the canvas only the pixels that its drawing calls produce are left
    open; [pixelmatch] returns its count together with the output buffer it
    filled in, or throws. *)
Class Collaborators `{JSNumber} := {
  (** [img.src = bytes], then the image drawn on a canvas of its size *)
  decodeImage : list Z → JSError.t + Canvas.t;
  (** the pixels of a fresh [w]x[h] canvas after
      [drawImage(source, 0, 0, w, h)] *)
  drawScaled : Canvas.t → Z → Z → Buffer;
  (** the pixels of a fresh [w]x[h] canvas after [fillRect] with the
      background colour and [drawImage(source, 0, 0)] *)
  drawOnBackground : list Z → Canvas.t → Z → Z → Buffer;
  pixelmatch :
    Buffer → Buffer → Buffer → Z → Z → PixelmatchOptions.t →
    JSError.t + (Z * Buffer)
}.

(** ** ClusterAnalyzer *)

Module ClusterAnalyzer.

Definition Pixel : Type := Z * Z.

(** [(y * width + x) * 4]: the offset of a pixel's 4-byte slot. *)
Definition slot (width : Z) (p : Pixel) : Z := (p.2 * width + p.1) * 4.

Definition _isDiffPixel (buffer : Buffer) (pos : Z) : bool :=
  byteIs (readByte buffer pos) 255
  && byteIs (readByte buffer (pos + 1)) 0
  && byteIs (readByte buffer (pos + 2)) 0.

(** The body of the two nested [for (d = -1; d <= 1; d++)] loops with the
    [dx === 0 && dy === 0] case skipped: the offsets in visiting order. *)
Definition offsets8 : list (Z * Z) :=
  dy ← [-1; 0; 1];
  dx ← [-1; 0; 1];
  if (dx =? 0) && (dy =? 0) then [] else [(dx, dy)].

Definition neighbours8 (p : Pixel) : list Pixel :=
  (λ d, (p.1 + d.1, p.2 + d.2)) <$> offsets8.

(** [nx >= 0 && nx < width && ny >= 0 && ny < height] *)
Definition inBounds (width height : Z) (p : Pixel) : bool :=
  (0 <=? p.1) && (p.1 <? width) && (0 <=? p.2) && (p.2 <? height).

(** The neighbours that one visit pushes on the queue. *)
Definition pushes (width height : Z) (visited : gset Z) (p : Pixel) : list Pixel :=
  filter (λ n, inBounds width height n = true ∧ slot width n ∉ visited)
         (neighbours8 p).

(** The number of buffer offsets that hold a diff marker and are not yet
    visited; it bounds the visits the flood fill can still make. *)
Definition unvisitedDiff (buffer : Buffer) (visited : gset Z) : nat :=
  length (filter (λ i : nat, _isDiffPixel buffer (Z.of_nat i) = true
                             ∧ Z.of_nat i ∉ visited)
                 (seq 0 (length buffer))).

(** [visited.has(pos) || !this._isDiffPixel(buffer, pos)] *)
Definition skips (buffer : Buffer) (visited : gset Z) (pos : Z) : bool :=
  bool_decide (pos ∈ visited) || negb (_isDiffPixel buffer pos).

(** The [while (queue.length > 0)] loop of [_findCluster]: the queue, the
    visited set (shared with the scan of [analyzeClusters]), the pixels of
    the cluster so far and their count are threaded through the
    iterations. *)
Equations? floodFill (buffer : Buffer) (width height : Z)
    (queue : list Pixel) (visited : gset Z)
    (clusterPixels : list Pixel) (size : Z) : gset Z * list Pixel * Z
    by wf (length queue + 8 * unvisitedDiff buffer visited)%nat lt :=
  floodFill buffer width height [] visited clusterPixels size :=
    (visited, clusterPixels, size);
  floodFill buffer width height (p :: rest) visited clusterPixels size
    with Sumbool.sumbool_of_bool (skips buffer visited (slot width p)) := {
    | left _ := floodFill buffer width height rest visited clusterPixels size
    | right _ :=
        let visited' := {[slot width p]} ∪ visited in
        floodFill buffer width height
                  (rest ++ pushes width height visited' p) visited'
                  (clusterPixels ++ [p]) (size + 1) }.
Proof.
  (* a visit pushes at most eight neighbours and retires one unvisited marker *)
  subst visited'.
  assert (Hpush : (length (pushes width height ({[slot width p]} ∪ visited) p)
                   ≤ 8)%nat).
  { unfold pushes. etrans; [apply length_filter|].
    unfold neighbours8. by rewrite length_fmap. }
  assert (Hvisit : (unvisitedDiff buffer ({[slot width p]} ∪ visited)
                    < unvisitedDiff buffer visited)%nat).
  { match goal with H : skips _ _ _ = false |- _ => revert H end.
    generalize (slot width p) as pos. clear. intros pos Hs.
    unfold skips, unvisitedDiff in *.
    apply orb_false_iff in Hs as [Hv Hd].
    apply bool_decide_eq_false in Hv. apply negb_false_iff in Hd.
    assert (Hpos : 0 ≤ pos ∧ (Z.to_nat pos < length buffer)%nat).
    { unfold _isDiffPixel, readByte in Hd.
      destruct (pos <? 0) eqn:Hneg; [done|]. apply Z.ltb_ge in Hneg.
      destruct (buffer !! Z.to_nat pos) eqn:Hl; [|done].
      split; [done|]. by eapply lookup_lt_Some. }
    destruct Hpos as [Hnn Hlt].
    assert (Hin : Z.to_nat pos ∈ seq 0 (length buffer))
      by (apply elem_of_seq; lia).
    revert Hin. generalize (seq 0 (length buffer)) as l.
    induction l as [|i l IH]; intros Hin; [by apply elem_of_nil in Hin|].
    rewrite !filter_cons.
    assert (Hle : ∀ l' : list nat,
      (length (filter (λ i : nat, _isDiffPixel buffer (Z.of_nat i) = true
                        ∧ Z.of_nat i ∉ {[pos]} ∪ visited) l')
       ≤ length (filter (λ i : nat, _isDiffPixel buffer (Z.of_nat i) = true
                        ∧ Z.of_nat i ∉ visited) l'))%nat).
    { induction l' as [|j l' IH']; [done|]. rewrite !filter_cons.
      repeat case_decide; simpl; try lia.
      exfalso. set_solver. }
    destruct (decide (i = Z.to_nat pos)) as [->|Hne].
    - rewrite Z2Nat.id by done.
      rewrite decide_False by set_solver. rewrite decide_True by done.
      simpl. specialize (Hle l). lia.
    - apply elem_of_cons in Hin as [Heq|Hin]; [congruence|].
      specialize (IH Hin).
      repeat case_decide; simpl; try lia.
      exfalso. match goal with H : ¬ (_ ∧ _) |- _ => apply H end.
      split; [tauto|]. set_solver by lia. }
  rewrite length_app. lia.
Qed.

(** The positions of a [width]x[height] image in scan order, and those of
    them that the mask marks as differing. *)
Definition coords (width height : Z) : list Pixel :=
  y ← seqZ 0 height; x ← seqZ 0 width; [(x, y)].

Definition diffPixels (buffer : Buffer) (width height : Z) : list Pixel :=
  filter (λ p, _isDiffPixel buffer (slot width p) = true) (coords width height).

Module Bounds.
Record t := {
  minX : Z; minY : Z; maxX : Z; maxY : Z;
  width : option Z; height : option Z
}.
End Bounds.

Module Cluster.
Record t := {
  size : Z;
  pixels : list Pixel;
  isLineShift : bool;
  bounds : Bounds.t
}.
End Cluster.

Module Analysis.
Record t := {
  clusters : list Cluster.t;
  significantClusters : Z;
  significantPixels : Z;
  totalClusters : Z
}.
End Analysis.

(** [array.length] *)
Definition len {A} (l : list A) : Z := Z.of_nat (length l).

Definition _calculateBounds (pixels : list Pixel) : Bounds.t :=
  match pixels with
  | [] => {| Bounds.minX := 0; Bounds.minY := 0; Bounds.maxX := 0;
             Bounds.maxY := 0; Bounds.width := None; Bounds.height := None |}
  | p0 :: _ =>
      let '(minX, maxX, minY, maxY) :=
        fold_left (λ '(minX, maxX, minY, maxY) p,
                     (Z.min minX p.1, Z.max maxX p.1,
                      Z.min minY p.2, Z.max maxY p.2))
                  pixels (p0.1, p0.1, p0.2, p0.2) in
      {| Bounds.minX := minX; Bounds.minY := minY; Bounds.maxX := maxX;
         Bounds.maxY := maxY; Bounds.width := Some (maxX - minX + 1);
         Bounds.height := Some (maxY - minY + 1) |}
  end.

(** The inner loops of [_detectLineShift]: the diff pixels among the
    in-bounds neighbours of [p], read from the buffer. *)
Definition countNeighbors (buffer : Buffer) (width height : Z) (p : Pixel) : Z :=
  fold_left (λ neighbors n,
               if inBounds width height n && _isDiffPixel buffer (slot width n)
               then neighbors + 1 else neighbors)
            (neighbours8 p) 0.

(** The outer loop of [_detectLineShift]. *)
Definition countLinelike (buffer : Buffer) (width height : Z)
    (clusterPixels : list Pixel) : Z :=
  fold_left (λ linelikePixels p,
               if countNeighbors buffer width height p <=? 2
               then linelikePixels + 1 else linelikePixels)
            clusterPixels 0.

(** The line-shift rule in the words of the specification: the neighbours of
    a pixel are the positions at most one step away in each direction, the
    pixel itself excluded; a pixel is line-like when at most two of its
    in-bounds neighbours are differing pixels of the mask. *)
Definition adjacent8 (p q : Pixel) : Prop :=
  q ≠ p ∧ Z.abs (q.1 - p.1) ≤ 1 ∧ Z.abs (q.2 - p.2) ≤ 1.

Definition differingNeighbours (buffer : Buffer) (width height : Z)
    (p : Pixel) : list Pixel :=
  filter (λ q, inBounds width height q = true
               ∧ _isDiffPixel buffer (slot width q) = true)
         (neighbours8 p).

Definition lineLike (buffer : Buffer) (width height : Z) (p : Pixel) : Prop :=
  len (differingNeighbours buffer width height p) ≤ 2.

#[export] Instance lineLike_dec (buffer : Buffer) (width height : Z)
    (p : Pixel) : Decision (lineLike buffer width height p) :=
  Z_le_dec _ _.

Section WithNumber.
Context `{JSNumber}.

(** The analyzer object: [this.options] is what the constructor was given. *)
Record t := { options : Options.t }.

Definition _detectLineShift (this : t) (clusterPixels : list Pixel)
    (buffer : Buffer) (width height : Z) : bool :=
  if len clusterPixels =? 0 then false
  else
    let linelikePixels := countLinelike buffer width height clusterPixels in
    ngt (ndiv (ofZ linelikePixels) (ofZ (len clusterPixels)))
        (getNum (Options.lineShiftThreshold (options this))).

(** [_findCluster] adds to the [visited] set it is handed; the updated set
    is returned next to the cluster. *)
Definition _findCluster (this : t) (buffer : Buffer) (startX startY : Z)
    (width height : Z) (visited : gset Z) : gset Z * Cluster.t :=
  let '(visited, clusterPixels, size) :=
    floodFill buffer width height [(startX, startY)] visited [] 0 in
  let isLineShift := _detectLineShift this clusterPixels buffer width height in
  (visited,
   {| Cluster.size := size;
      Cluster.pixels := clusterPixels;
      Cluster.isLineShift := isLineShift;
      Cluster.bounds := _calculateBounds clusterPixels |}).

(** The body of the scan loops at one position. *)
Definition scanPixel (this : t) (diffBuffer : Buffer) (width height : Z)
    (st : gset Z * list Cluster.t) (p : Pixel) : gset Z * list Cluster.t :=
  let '(visited, clusters) := st in
  let pos := slot width p in
  if _isDiffPixel diffBuffer pos && negb (bool_decide (pos ∈ visited)) then
    let '(visited, cluster) :=
      _findCluster this diffBuffer p.1 p.2 width height visited in
    (visited, clusters ++ [cluster])
  else st.

(** [for (y = 0; y < height; y++) for (x = 0; x < width; x++)] *)
Definition scan (this : t) (diffBuffer : Buffer) (width height : Z)
    : gset Z * list Cluster.t :=
  fold_left (λ st y,
               fold_left (λ st x, scanPixel this diffBuffer width height st (x, y))
                         (seqZ 0 width) st)
            (seqZ 0 height) (∅, []).

(** [!cluster.isLineShift && cluster.size >= options.minClusterSize] *)
Definition significant (options : Options.t) (cluster : Cluster.t) : bool :=
  negb (Cluster.isLineShift cluster)
  && nge (ofZ (Cluster.size cluster)) (getNum (Options.minClusterSize options)).

Definition analyzeClusters (this : t) (diffBuffer : Buffer) (width height : Z)
    (options : Options.t) : Analysis.t :=
  let clusters := (scan this diffBuffer width height).2 in
  let significantClusters := List.filter (significant options) clusters in
  let significantPixels :=
    fold_left (λ sum cluster, sum + Cluster.size cluster) significantClusters 0 in
  {| Analysis.clusters := clusters;
     Analysis.significantClusters := len significantClusters;
     Analysis.significantPixels := significantPixels;
     Analysis.totalClusters := len clusters |}.

End WithNumber.

End ClusterAnalyzer.

(** The contract of the diff provider that the pipeline relies on: the count
    it returns is the number of positions it marked in the output buffer. *)
Definition countsMarkers `{Collaborators} : Prop :=
  ∀ img1 img2 output width height options diffCount diffBuffer,
    pixelmatch img1 img2 output width height options
    = inr (diffCount, diffBuffer) →
    diffCount = ClusterAnalyzer.len
                  (ClusterAnalyzer.diffPixels diffBuffer width height).

(** ** ImageProcessor *)

Module Processed.
Record t := {
  actualImageData : ImageData.t;
  expectedImageData : ImageData.t;
  width : Z;
  height : Z
}.
End Processed.

Module ImageProcessor.
Section WithLibraries.
Context `{Collaborators}.

Record t := { options : Options.t }.

(** [_toCanvas] as in the copy of the file that the other functions are
    taken from, read where the global [HTMLCanvasElement] is defined; where
    it is not, the [instanceof] test of this copy throws a [ReferenceError]
    on every input.  (The second copy tests [getContext] without that
    global, also accepts [Image] objects and rejects canvases of size zero;
    the remaining methods are the same in both.) *)
Definition _toCanvas (input : ImageInput) : JSError.t + Canvas.t :=
  match input with
  | Missing => inl (TypeError "Cannot read properties of null")
  | ACanvas canvas => inr canvas
  | AnImageData img =>
      if negb (ImageData.width img =? 0) && negb (ImageData.height img =? 0)
      then inr {| Canvas.width := ImageData.width img;
                  Canvas.height := ImageData.height img;
                  Canvas.data := ImageData.data img |}
      else inl (Error "Unsupported image input type")
  | ABuffer bytes => decodeImage bytes
  | Other => inl (Error "Unsupported image input type")
  end.

Definition _calculateScale (canvas : Canvas.t) (maxSide : num) : num :=
  let scale := nmin (ndiv maxSide (ofZ (Canvas.width canvas)))
                    (ndiv maxSide (ofZ (Canvas.height canvas))) in
  let ratio := ndiv (ofZ (Canvas.width canvas)) (ofZ (Canvas.height canvas)) in
  let narrow := negb (nseq ratio (ofZ 1)) in
  if narrow then nmul scale (ofZ 2) else scale.

Definition _resizeImage (canvas : Canvas.t) (scale : num) : Canvas.t :=
  let newWidth := nceil (nmul (ofZ (Canvas.width canvas)) scale) in
  let newHeight := nceil (nmul (ofZ (Canvas.height canvas)) scale) in
  {| Canvas.width := newWidth; Canvas.height := newHeight;
     Canvas.data := drawScaled canvas newWidth newHeight |}.

(** [backgroundColor.join(',')] throws when the key is missing. *)
Definition _createStandardizedCanvas (sourceCanvas : Canvas.t)
    (width height : Z) (backgroundColor : option (list Z))
    : JSError.t + Canvas.t :=
  match backgroundColor with
  | None => inl (TypeError "Cannot read properties of undefined")
  | Some color =>
      inr {| Canvas.width := width; Canvas.height := height;
             Canvas.data := drawOnBackground color sourceCanvas width height |}
  end.

(** [canvas.getContext('2d').getImageData(0, 0, width, height)] on a canvas
    of that size; the canvas API refuses an empty rectangle. *)
Definition getImageData (canvas : Canvas.t) (width height : Z)
    : JSError.t + ImageData.t :=
  if width =? 0 then inl (IndexSizeError "The source width is 0.")
  else if height =? 0 then inl (IndexSizeError "The source height is 0.")
  else inr {| ImageData.data := Canvas.data canvas;
              ImageData.width := width; ImageData.height := height |}.

Definition processImages (actual expected : ImageInput) (options : Options.t)
    : JSError.t + Processed.t :=
  actualCanvas ← _toCanvas actual;
  expectedCanvas ← _toCanvas expected;
  let scale := _calculateScale expectedCanvas (getNum (Options.maxSide options)) in
  let resizedActual := _resizeImage actualCanvas scale in
  let resizedExpected := _resizeImage expectedCanvas scale in
  let width := Canvas.width resizedExpected in
  let height := Canvas.height resizedExpected in
  processedActual ←
    _createStandardizedCanvas resizedActual width height
                              (Options.backgroundColor options);
  processedExpected ←
    _createStandardizedCanvas resizedExpected width height
                              (Options.backgroundColor options);
  actualImageData ← getImageData processedActual width height;
  expectedImageData ← getImageData processedExpected width height;
  inr {| Processed.actualImageData := actualImageData;
         Processed.expectedImageData := expectedImageData;
         Processed.width := width; Processed.height := height |}.

End WithLibraries.
End ImageProcessor.

(** ** ImageComparator ([src/core/ImageComparator.js]) *)

(** The calls a comparison makes to its three stages are recorded in the
    order they happen, next to what the comparison throws or returns. *)
Inductive Call := ProcessImages | Pixelmatch | AnalyzeClusters.

Definition Run (A : Type) : Type := list Call * (JSError.t + A).

#[export] Instance run_ret : MRet Run := λ A a, ([], inr a).
#[export] Instance run_bind : MBind Run :=
  λ A B f m,
    match m with
    | (log, inl e) => (log, inl e)
    | (log, inr a) => let '(log', r) := f a in (log ++ log', r)
    end.

(** A stage is entered, then throws or returns. *)
Definition call {A} (c : Call) (r : JSError.t + A) : Run A := ([c], r).

Module Details.
Record t := {
  totalDiffPixels : Z;
  significantDiffPixels : Z;
  clusters : list ClusterAnalyzer.Cluster.t;
  analysis : option ClusterAnalyzer.Analysis.t
}.
End Details.

Module Result.
Record t := {
  ok : bool;
  diffCount : Z;
  diffImageData : ImageData.t;
  details : Details.t
}.
End Result.

Module ImageComparator.
Import ClusterAnalyzer.
Section WithLibraries.
Context `{Collaborators}.

Record t := {
  options : Options.t;
  processor : ImageProcessor.t;
  clusterAnalyzer : ClusterAnalyzer.t
}.

(** [this.options], for the methods that also take an [options] argument. *)
Definition this_options (this : t) : Options.t := options this.

Definition new (options : Options.t) : t :=
  {| options := options;
     processor := {| ImageProcessor.options := options |};
     clusterAnalyzer := {| ClusterAnalyzer.options := options |} |}.

(** [!input] *)
Definition missing (input : ImageInput) : bool :=
  match input with
  | Missing => true
  | _ => false
  end.

Definition _validateInputs (actual expected : ImageInput) : Run () :=
  if missing actual || missing expected
  then ([], inl (ValidationError "Both actual and expected images are required"))
  else mret ().

Definition _evaluateSignificance (analysis : Analysis.t) (options : Options.t)
    : bool :=
  let significantPixels := Analysis.significantPixels analysis in
  let significantClusters := Analysis.significantClusters analysis in
  (significantPixels =? 0)
  || (nle (ofZ significantPixels) (getNum (Options.maxTotalDiffPixels options))
      && nle (ofZ significantClusters)
             (getNum (Options.maxSignificantClusters options))).

(** [createImageData(diffBuffer, width, height)] *)
Definition createImageData (data : Buffer) (width height : Z) : ImageData.t :=
  {| ImageData.data := data; ImageData.width := width;
     ImageData.height := height |}.

Definition compare (this : t) (actual expected : ImageInput)
    (options : Options.t) : Run Result.t :=
  let mergedOptions := Options.spread (this_options this) options in
  _ ← _validateInputs actual expected;
  processedImages ←
    call ProcessImages
         (ImageProcessor.processImages actual expected mergedOptions);
  let actualImageData := Processed.actualImageData processedImages in
  let expectedImageData := Processed.expectedImageData processedImages in
  let width := Processed.width processedImages in
  let height := Processed.height processedImages in
  let diffBuffer := replicate (Z.to_nat (width * height * 4)) 0 in
  counted ←
    call Pixelmatch
         (pixelmatch (ImageData.data actualImageData)
                     (ImageData.data expectedImageData)
                     diffBuffer width height
                     {| PixelmatchOptions.threshold :=
                          Options.threshold mergedOptions;
                        PixelmatchOptions.includeAA :=
                          Options.includeAA mergedOptions;
                        PixelmatchOptions.alpha := Options.alpha mergedOptions |});
  let diffCount := counted.1 in
  let diffBuffer := counted.2 in
  if diffCount =? 0 then
    mret {| Result.ok := true;
            Result.diffCount := 0;
            Result.diffImageData := createImageData diffBuffer width height;
            Result.details :=
              {| Details.totalDiffPixels := 0;
                 Details.significantDiffPixels := 0;
                 Details.clusters := [];
                 Details.analysis := None |} |}
  else
    clusterAnalysis ←
      call AnalyzeClusters
           (inr (analyzeClusters (clusterAnalyzer this) diffBuffer width height
                                 mergedOptions));
    let ok := _evaluateSignificance clusterAnalysis mergedOptions in
    mret {| Result.ok := ok;
            Result.diffCount := diffCount;
            Result.diffImageData := createImageData diffBuffer width height;
            Result.details :=
              {| Details.totalDiffPixels := diffCount;
                 Details.significantDiffPixels :=
                   Analysis.significantPixels clusterAnalysis;
                 Details.clusters := Analysis.clusters clusterAnalysis;
                 Details.analysis := Some clusterAnalysis |} |}.

End WithLibraries.
End ImageComparator.

(** ** VisualComparisonEngine ([src/index.js]) *)

Module Pair.
Record t := { actual : ImageInput; expected : ImageInput; name : string }.
End Pair.

(** An entry of the list [batchCompare] returns. *)
Inductive BatchEntry :=
  | Compared (name : string) (result : Result.t)      (* { name, ...result } *)
  | Failed (name : string) (ok : bool) (error : string).

Module VisualComparisonEngine.
Section WithLibraries.
Context `{Collaborators}.

Record t := {
  options : Options.t;
  comparator : ImageComparator.t
}.

Definition this_options (this : t) : Options.t := options this.

(** The object literal of the constructor before its trailing [...options]. *)
Definition fallbacks (options : Options.t) : Options.t :=
  {| Options.threshold := Some (orElse (Options.threshold options) (ofQ 0.5));
     Options.includeAA :=
       Some (match Options.includeAA options with
             | Some b => b
             | None => false
             end);
     Options.alpha := Some (orElse (Options.alpha options) (ofQ 0.1));
     Options.maxSide := Some (orElse (Options.maxSide options) (ofZ 400));
     Options.backgroundColor :=
       Some (default [240; 240; 240; 255] (Options.backgroundColor options));
     Options.minClusterSize :=
       Some (orElse (Options.minClusterSize options) (ofZ 4));
     Options.maxTotalDiffPixels :=
       Some (orElse (Options.maxTotalDiffPixels options) (ofZ 40));
     Options.maxSignificantClusters :=
       Some (orElse (Options.maxSignificantClusters options) (ofZ 2));
     Options.lineShiftThreshold :=
       Some (orElse (Options.lineShiftThreshold options) (ofQ 0.8)) |}.

Definition new (options : Options.t) : t :=
  let options := Options.spread (fallbacks options) options in
  {| options := options; comparator := ImageComparator.new options |}.

Definition compare (this : t) (actual expected : ImageInput)
    (options : Options.t) : Run Result.t :=
  let mergedOptions := Options.spread (this_options this) options in
  match ImageComparator.compare (comparator this) actual expected mergedOptions with
  | (log, inr result) => (log, inr result)
  | (log, inl error) =>
      (log, inl (ComparisonError ("Comparison failed: " +:+ JSError.message error)
                                 error))
  end.

Definition batchCompare (this : t) (imagePairs : list Pair.t)
    (options : Options.t) : list Call * list BatchEntry :=
  let mergedOptions := Options.spread (this_options this) options in
  fold_left
    (λ '(log, results) pair,
       match ImageComparator.compare (comparator this) (Pair.actual pair)
                                     (Pair.expected pair) mergedOptions with
       | (log', inr result) =>
           (log ++ log', results ++ [Compared (Pair.name pair) result])
       | (log', inl error) =>
           (log ++ log',
            results ++ [Failed (Pair.name pair) false (JSError.message error)])
       end)
    imagePairs ([], []).

End WithLibraries.
End VisualComparisonEngine.

(** ** An exact instance of the numbers

    Rationals with a [NaN]; it runs the definitions on inputs whose
    quotients and products doubles represent exactly.  A division by zero,
    which doubles answer with an infinity, is [NaN] here. *)

Module QNumber.

Inductive qnum := Fin (q : Q) | NaN.

Definition lift2 (f : Q → Q → Q) (a b : qnum) : qnum :=
  match a, b with
  | Fin x, Fin y => Fin (f x y)
  | _, _ => NaN
  end.

Definition rel2 (f : Q → Q → bool) (a b : qnum) : bool :=
  match a, b with
  | Fin x, Fin y => f x y
  | _, _ => false
  end.

Definition qdiv (a b : qnum) : qnum :=
  match a, b with
  | Fin x, Fin y => if Qeq_bool y 0 then NaN else Fin (x / y)
  | _, _ => NaN
  end.

Definition qceil (a : qnum) : Z :=
  match a with
  | Fin x => Qceiling x
  | NaN => 0
  end.

Definition qtruthy (a : qnum) : bool :=
  match a with
  | Fin x => negb (Qeq_bool x 0)
  | NaN => false
  end.

#[export, refine] Instance number : JSNumber := {|
  num := qnum;
  ofQ := Fin;
  nan := NaN;
  ndiv := qdiv;
  nmul := lift2 Qmult;
  nmin := lift2 (λ x y, if Qle_bool x y then x else y);
  nceil := qceil;
  ngt := rel2 (λ x y, negb (Qle_bool x y));
  nle := rel2 Qle_bool;
  nge := rel2 (λ x y, Qle_bool y x);
  nseq := rel2 Qeq_bool;
  truthy := qtruthy
|}.
Proof.
  - (* a >= b and c <= b give a >= c *)
    intros [x|] [y|] [z|]; simpl; try done.
    rewrite !Qle_bool_iff. intros Hyx Hzy. by eapply Qle_trans.
  - (* w / h === 1 exactly when w = h *)
    intros w h [Hw _] [Hh _]. unfold qdiv.
    assert (Hnz : ¬ (inject_Z h == 0)%Q).
    { unfold Qeq. simpl. lia. }
    destruct (Qeq_bool (inject_Z h) 0) eqn:E.
    { apply Qeq_bool_iff in E. done. }
    simpl. destruct (w =? h) eqn:Ewh.
    + apply Z.eqb_eq in Ewh as ->. apply Qeq_bool_iff. by field.
    + apply Z.eqb_neq in Ewh. apply not_true_is_false. intros E1.
      apply Qeq_bool_iff in E1. apply Ewh.
      assert (E2 : (inject_Z w == inject_Z h)%Q).
      { rewrite <- (Qmult_1_l (inject_Z h)), <- E1. by field. }
      unfold Qeq in E2. simpl in E2. lia.
Defined.

End QNumber.

(** ** Stand-ins for the external libraries

    A nearest-neighbour canvas and an exact-match [pixelmatch], enough to
    run the pipeline on small images. *)

Module Demo.
Import ClusterAnalyzer.
Section WithNumber.
Context `{JSNumber}.

(** The four bytes of the pixel at [p], or a transparent pixel outside. *)
Definition pixelAt (data : Buffer) (width height : Z) (p : Pixel) : list Z :=
  if inBounds width height p
  then (λ k, default 0 (readByte data (slot width p + k))) <$> [0; 1; 2; 3]
  else [0; 0; 0; 0].

Definition demoScaled (source : Canvas.t) (w h : Z) : Buffer :=
  p ← coords w h;
  pixelAt (Canvas.data source) (Canvas.width source) (Canvas.height source)
          (p.1 * Canvas.width source / w, p.2 * Canvas.height source / h).

Definition demoOnBackground (color : list Z) (source : Canvas.t) (w h : Z)
    : Buffer :=
  p ← coords w h;
  if inBounds (Canvas.width source) (Canvas.height source) p
  then pixelAt (Canvas.data source) (Canvas.width source)
               (Canvas.height source) p
  else color.

Definition demoMatch (img1 img2 output : Buffer) (width height : Z)
    (options : PixelmatchOptions.t) : JSError.t + (Z * Buffer) :=
  if negb (length img1 =? length img2)%nat
  then inl (Error "Image sizes do not match.")
  else
    let marked :=
      (λ p, if bool_decide (pixelAt img1 width height p
                            = pixelAt img2 width height p)
            then [255; 255; 255; 255] else [255; 0; 0; 255])
        <$> coords width height in
    let output := mjoin marked in
    inr (len (diffPixels output width height), output).

#[export] Instance libraries : Collaborators := {|
  decodeImage := λ _, inl (Error "Image given has not completed loading");
  drawScaled := demoScaled;
  drawOnBackground := demoOnBackground;
  pixelmatch := demoMatch
|}.

End WithNumber.
End Demo.


(** ** Derived options

    Used to state what the constructor and the merges amount to. *)

Section DerivedOptions.
Context `{Collaborators}.

(** The options handed to [pixelmatch]. *)
Definition matchOptions (mergedOptions : Options.t) : PixelmatchOptions.t :=
  {| PixelmatchOptions.threshold := Options.threshold mergedOptions;
     PixelmatchOptions.includeAA := Options.includeAA mergedOptions;
     PixelmatchOptions.alpha := Options.alpha mergedOptions |}.

Definition requiredMessage : string :=
  "Both actual and expected images are required".

(** The defaults the constructor's [||] fallbacks hold. *)
Definition defaults : Options.t :=
  {| Options.threshold := Some (ofQ 0.5);
     Options.includeAA := Some false;
     Options.alpha := Some (ofQ 0.1);
     Options.maxSide := Some (ofZ 400);
     Options.backgroundColor := Some [240; 240; 240; 255];
     Options.minClusterSize := Some (ofZ 4);
     Options.maxTotalDiffPixels := Some (ofZ 40);
     Options.maxSignificantClusters := Some (ofZ 2);
     Options.lineShiftThreshold := Some (ofQ 0.8) |}.

(** [{ ...options, lineShiftThreshold: value }] *)
Definition withLineShiftThreshold (options : Options.t) (value : option num)
    : Options.t :=
  {| Options.threshold := Options.threshold options;
     Options.includeAA := Options.includeAA options;
     Options.alpha := Options.alpha options;
     Options.maxSide := Options.maxSide options;
     Options.backgroundColor := Options.backgroundColor options;
     Options.minClusterSize := Options.minClusterSize options;
     Options.maxTotalDiffPixels := Options.maxTotalDiffPixels options;
     Options.maxSignificantClusters := Options.maxSignificantClusters options;
     Options.lineShiftThreshold := value |}.

End DerivedOptions.

(** ** What the scan maintains *)

Section Invariants.
Import ClusterAnalyzer.
Context `{JSNumber}.
Variables (this : ClusterAnalyzer.t) (buffer : Buffer) (width height : Z).

(** The visited set against the pixels handed out to clusters so far. *)
Record Marked (visited : gset Z) (found : list Pixel) : Prop := {
  marked_NoDup : NoDup found;
  marked_visited : ∀ p, p ∈ found → slot width p ∈ visited;
  marked_diff : ∀ p, p ∈ found →
    inBounds width height p = true ∧ _isDiffPixel buffer (slot width p) = true;
  marked_found : ∀ k, k ∈ visited → ∃ p, p ∈ found ∧ slot width p = k
}.

Definition allPixels (clusters : list Cluster.t) : list Pixel :=
  clusters ≫= Cluster.pixels.

(** A cluster as [_findCluster] builds it. *)
Definition built (cluster : Cluster.t) : Prop :=
  Cluster.size cluster = len (Cluster.pixels cluster)
  ∧ Cluster.pixels cluster ≠ []
  ∧ Cluster.isLineShift cluster
    = _detectLineShift this (Cluster.pixels cluster) buffer width height
  ∧ Cluster.bounds cluster = _calculateBounds (Cluster.pixels cluster).

Definition scanned (st : gset Z * list Cluster.t) : Prop :=
  Marked st.1 (allPixels st.2) ∧ Forall built st.2.

(** [list.reduce((sum, cluster) => sum + cluster.size, 0)] *)
Definition sumSizes (l : list Cluster.t) : Z :=
  fold_left (λ sum cluster, sum + Cluster.size cluster) l 0.

End Invariants.

(** ** Small inputs *)

#[local] Existing Instance QNumber.number.
#[local] Existing Instance Demo.libraries.

Module Sample.
Import ClusterAnalyzer.

Definition white : ImageInput :=
  ACanvas {| Canvas.width := 1; Canvas.height := 1;
             Canvas.data := [255; 255; 255; 255] |}.

Definition black : ImageInput :=
  ACanvas {| Canvas.width := 1; Canvas.height := 1;
             Canvas.data := [0; 0; 0; 255] |}.

(** [new VisualComparisonEngine()] *)
Definition engine : VisualComparisonEngine.t :=
  VisualComparisonEngine.new Options.empty.

(** [{ maxSide: 1, minClusterSize: 1, maxTotalDiffPixels: 0,
       lineShiftThreshold: 1 }] *)
Definition override : Options.t :=
  {| Options.threshold := None; Options.includeAA := None;
     Options.alpha := None; Options.maxSide := Some (ofZ 1);
     Options.backgroundColor := None; Options.minClusterSize := Some (ofZ 1);
     Options.maxTotalDiffPixels := Some (ofZ 0);
     Options.maxSignificantClusters := None;
     Options.lineShiftThreshold := Some (ofZ 1) |}.

(** [new VisualComparisonEngine({ lineShiftThreshold: 1 })] *)
Definition strictEngine : VisualComparisonEngine.t :=
  VisualComparisonEngine.new
    (withLineShiftThreshold Options.empty (Some (ofZ 1))).

(** A 4x1 mask: marker, blank, marker, marker. *)
Definition mask : Buffer :=
  [255; 0; 0; 255;  0; 0; 0; 255;  255; 0; 0; 255;  255; 0; 0; 255].

(** An analyzer constructed with [lineShiftThreshold: 1]. *)
Definition analyzer : ClusterAnalyzer.t :=
  {| ClusterAnalyzer.options :=
       withLineShiftThreshold defaults (Some (ofZ 1)) |}.

(** [{ minClusterSize: n }] *)
Definition atLeast (n : Z) : Options.t :=
  {| Options.threshold := None; Options.includeAA := None;
     Options.alpha := None; Options.maxSide := None;
     Options.backgroundColor := None; Options.minClusterSize := Some (ofZ n);
     Options.maxTotalDiffPixels := None;
     Options.maxSignificantClusters := None;
     Options.lineShiftThreshold := None |}.

(** A 100x200 baseline and [{ ...defaults, maxSide: 800 }]. *)
Definition portrait : Canvas.t :=
  {| Canvas.width := 100; Canvas.height := 200; Canvas.data := [] |}.

Definition wide : Options.t :=
  Options.spread defaults
    {| Options.threshold := None; Options.includeAA := None;
       Options.alpha := None; Options.maxSide := Some (ofZ 800);
       Options.backgroundColor := None; Options.minClusterSize := None;
       Options.maxTotalDiffPixels := None;
       Options.maxSignificantClusters := None;
       Options.lineShiftThreshold := None |}.

(** Three pairs; the second hands in something that is not an image. *)
Definition second : Pair.t :=
  {| Pair.actual := Other; Pair.expected := white; Pair.name := "second" |}.

Definition pairs : list Pair.t :=
  [ {| Pair.actual := black; Pair.expected := white; Pair.name := "first" |};
    second;
    {| Pair.actual := white; Pair.expected := white; Pair.name := "third" |} ].

End Sample.


(** ** Components and boxes

    What it means for a pixel list to be one connected component of the
    mask, and the positions a bounding box covers. *)

Section Components.
Import ClusterAnalyzer.

(** A chain of 8-adjacent steps through the pixels of [S]. *)
Definition linked (S : list Pixel) : relation Pixel :=
  rtc (λ a b, adjacent8 a b ∧ a ∈ S ∧ b ∈ S).

(** No differing in-bounds neighbour of a pixel of [S] lies outside [S]. *)
Definition closedIn (buffer : Buffer) (width height : Z) (S : list Pixel)
    : Prop :=
  ∀ p n, p ∈ S → adjacent8 p n →
         inBounds width height n = true →
         _isDiffPixel buffer (slot width n) = true → n ∈ S.

(** A cluster whose pixels are closed and pairwise linked. *)
Definition component (buffer : Buffer) (width height : Z) (c : Cluster.t)
    : Prop :=
  closedIn buffer width height (Cluster.pixels c)
  ∧ ∀ p q, p ∈ Cluster.pixels c → q ∈ Cluster.pixels c →
           linked (Cluster.pixels c) p q.

(** The positions from [(minX, minY)] to [(maxX, maxY)]. *)
Definition box (b : Bounds.t) : list Pixel :=
  y ← seqZ (Bounds.minY b) (Bounds.maxY b - Bounds.minY b + 1);
  x ← seqZ (Bounds.minX b) (Bounds.maxX b - Bounds.minX b + 1);
  [(x, y)].

(** The cluster [_findCluster] returns when the loop visits nothing. *)
Definition emptyCluster : Cluster.t :=
  {| Cluster.size := 0;
     Cluster.pixels := [];
     Cluster.isLineShift := false;
     Cluster.bounds :=
       {| Bounds.minX := 0; Bounds.minY := 0; Bounds.maxX := 0;
          Bounds.maxY := 0; Bounds.width := None; Bounds.height := None |} |}.

(** The slots of a pixel list, as the visited set holds them. *)
Definition slots (width : Z) (pixels : list Pixel) : gset Z :=
  list_to_set (slot width <$> pixels).

(** The first pixel of the first cluster comes before that of the second. *)
Definition seedBefore (width : Z) (c c' : Cluster.t) : Prop :=
  ∀ s s', head (Cluster.pixels c) = Some s →
          head (Cluster.pixels c') = Some s' →
          slot width s < slot width s'.

(** The state of the scan once the positions [seen] are behind it. *)
Definition inOrder (buffer : Buffer) (width : Z) (seen : list Pixel)
    (st : gset Z * list Cluster.t) : Prop :=
  (∀ p, p ∈ seen → _isDiffPixel buffer (slot width p) = true →
        slot width p ∈ st.1)
  ∧ Forall (λ c, ∃ s rest,
              Cluster.pixels c = s :: rest ∧ s ∈ seen
              ∧ ∀ p, p ∈ rest → slot width s < slot width p) st.2
  ∧ StronglySorted (seedBefore width) st.2.

End Components.

(** A second contract of the diff provider: when it returns on two equal
    images, the count is 0. *)
Definition identicalMatch `{Collaborators} : Prop :=
  ∀ img output width height options diffCount diffBuffer,
    pixelmatch img img output width height options
    = inr (diffCount, diffBuffer) →
    diffCount = 0.

(** ** The cluster search of the p5 comparison ([index.ts]) *)

Module ClusterInfo.
Record t := {
  size : Z;
  pixels : list ClusterAnalyzer.Pixel;
  isLineShift : bool
}.
End ClusterInfo.

Module P5VisualCompare.
Import ClusterAnalyzer.

(** The two nested [for (d = -radius; d <= radius; d++)] loops of
    [findClusterSize]: the offsets in visiting order, the centre among
    them. *)
Definition offsets (radius : Z) : list (Z * Z) :=
  dy ← seqZ (- radius) (2 * radius + 1);
  dx ← seqZ (- radius) (2 * radius + 1);
  [(dx, dy)].

(** The neighbours that one visit pushes on the queue. *)
Definition radiusPushes (width height radius : Z) (visited : gset Z) (p : Pixel)
    : list Pixel :=
  filter (λ n, inBounds width height n = true ∧ slot width n ∉ visited)
         ((λ d, (p.1 + d.1, p.2 + d.2)) <$> offsets radius).

(** The [while (queue.length > 0)] loop of [findClusterSize]. *)
Equations? radiusFill (pixels : Buffer) (width height radius : Z)
    (queue : list Pixel) (visited : gset Z)
    (clusterPixels : list Pixel) (size : Z) : gset Z * list Pixel * Z
    by wf (length queue
           + length (offsets radius) * unvisitedDiff pixels visited)%nat lt :=
  radiusFill pixels width height radius [] visited clusterPixels size :=
    (visited, clusterPixels, size);
  radiusFill pixels width height radius (p :: rest) visited clusterPixels size
    with Sumbool.sumbool_of_bool (skips pixels visited (slot width p)) := {
    | left _ :=
        radiusFill pixels width height radius rest visited clusterPixels size
    | right _ :=
        let visited' := {[slot width p]} ∪ visited in
        radiusFill pixels width height radius
                  (rest ++ radiusPushes width height radius visited' p) visited'
                  (clusterPixels ++ [p]) (size + 1) }.
Proof.
  (* a visit pushes at most one neighbour per offset and retires one
     unvisited marker *)
  subst visited'.
  assert (Hpush : (length (radiusPushes width height radius
                                  ({[slot width p]} ∪ visited) p)
                   ≤ length (offsets radius))%nat).
  { unfold radiusPushes. etrans; [apply length_filter|]. by rewrite length_fmap. }
  assert (Hvisit : (unvisitedDiff pixels ({[slot width p]} ∪ visited)
                    < unvisitedDiff pixels visited)%nat).
  { match goal with H : skips _ _ _ = false |- _ => revert H end.
    generalize (slot width p) as pos. clear. intros pos Hs.
    unfold skips, unvisitedDiff in *.
    apply orb_false_iff in Hs as [Hv Hd].
    apply bool_decide_eq_false in Hv. apply negb_false_iff in Hd.
    assert (Hpos : 0 ≤ pos ∧ (Z.to_nat pos < length pixels)%nat).
    { unfold _isDiffPixel, readByte in Hd.
      destruct (pos <? 0) eqn:Hneg; [done|]. apply Z.ltb_ge in Hneg.
      destruct (pixels !! Z.to_nat pos) eqn:Hl; [|done].
      split; [done|]. by eapply lookup_lt_Some. }
    destruct Hpos as [Hnn Hlt].
    assert (Hin : Z.to_nat pos ∈ seq 0 (length pixels))
      by (apply elem_of_seq; lia).
    revert Hin. generalize (seq 0 (length pixels)) as l.
    induction l as [|i l IH]; intros Hin; [by apply elem_of_nil in Hin|].
    rewrite !filter_cons.
    assert (Hle : ∀ l' : list nat,
      (length (filter (λ i : nat, _isDiffPixel pixels (Z.of_nat i) = true
                        ∧ Z.of_nat i ∉ {[pos]} ∪ visited) l')
       ≤ length (filter (λ i : nat, _isDiffPixel pixels (Z.of_nat i) = true
                        ∧ Z.of_nat i ∉ visited) l'))%nat).
    { induction l' as [|j l' IH']; [done|]. rewrite !filter_cons.
      repeat case_decide; simpl; try lia.
      exfalso. set_solver. }
    destruct (decide (i = Z.to_nat pos)) as [->|Hne].
    - rewrite Z2Nat.id by done.
      rewrite decide_False by set_solver. rewrite decide_True by done.
      simpl. specialize (Hle l). lia.
    - apply elem_of_cons in Hin as [Heq|Hin]; [congruence|].
      specialize (IH Hin).
      repeat case_decide; simpl; try lia.
      exfalso. match goal with H : ¬ (_ ∧ _) |- _ => apply H end.
      split; [tauto|]. set_solver by lia. }
  rewrite length_app. nia.
Qed.

Section WithNumber.
Context `{JSNumber}.

(** [findClusterSize] adds to the [visited] set it is handed; the updated
    set is returned next to the cluster.  The line-like count runs the
    same loops as [_detectLineShift]. *)
Definition findClusterSize (pixels : Buffer) (startX startY : Z)
    (width height : Z) (radius : Z) (visited : gset Z)
    : gset Z * ClusterInfo.t :=
  let '(visited, clusterPixels, size) :=
    radiusFill pixels width height radius [(startX, startY)] visited [] 0 in
  let isLineShift :=
    if 0 <? len clusterPixels then
      let linelikePixels := countLinelike pixels width height clusterPixels in
      ngt (ndiv (ofZ linelikePixels) (ofZ (len clusterPixels))) (ofQ 0.8)
    else false in
  (visited,
   {| ClusterInfo.size := size;
      ClusterInfo.pixels := clusterPixels;
      ClusterInfo.isLineShift := isLineShift |}).

End WithNumber.
End P5VisualCompare.

(** A cluster without its bounds. *)
Definition clusterInfo (c : ClusterAnalyzer.Cluster.t) : ClusterInfo.t :=
  {| ClusterInfo.size := ClusterAnalyzer.Cluster.size c;
     ClusterInfo.pixels := ClusterAnalyzer.Cluster.pixels c;
     ClusterInfo.isLineShift := ClusterAnalyzer.Cluster.isLineShift c |}.

(** ** The command line ([bin/cli.js]) *)

Module Config.
Section WithNumber.
Context `{JSNumber}.
(** The keys of [config]; a path or the format is [None] when the key is
    missing or holds [undefined]. *)
Record t := {
  threshold : num;
  format : option string;
  baseline : option string;
  comparison : option string;
  output : option string
}.
End WithNumber.
Arguments t {_}.
End Config.

Module Cli.

(** The cases of the [switch] that take a value. *)
Inductive Flag := Baseline | Comparison | Output | Threshold | Format.

#[global] Instance Flag_eq_dec : EqDecision Flag.
Proof. solve_decision. Defined.

Definition flagText (flag : Flag) : string :=
  match flag with
  | Baseline => "--baseline"
  | Comparison => "--comparison"
  | Output => "--output"
  | Threshold => "--threshold"
  | Format => "--format"
  end.

(** [switch (args[i])]: the case taken, [None] for ['compare'] and for any
    other word. *)
Definition flagOf (arg : string) : option Flag :=
  if String.eqb arg "--baseline" then Some Baseline
  else if String.eqb arg "--comparison" then Some Comparison
  else if String.eqb arg "--output" then Some Output
  else if String.eqb arg "--threshold" then Some Threshold
  else if String.eqb arg "--format" then Some Format
  else None.

Section WithNumber.
Context `{JSNumber}.
(** [parseFloat] on a string; on [undefined] it gives [NaN]. *)
Variable parseFloat : string → num.

(** The body of a case: [config.key = args[++i]], where [args[++i]] is
    [undefined] past the end. *)
Definition assign (flag : Flag) (value : option string) (config : Config.t)
    : Config.t :=
  match flag with
  | Baseline =>
      {| Config.threshold := Config.threshold config;
         Config.format := Config.format config;
         Config.baseline := value;
         Config.comparison := Config.comparison config;
         Config.output := Config.output config |}
  | Comparison =>
      {| Config.threshold := Config.threshold config;
         Config.format := Config.format config;
         Config.baseline := Config.baseline config;
         Config.comparison := value;
         Config.output := Config.output config |}
  | Output =>
      {| Config.threshold := Config.threshold config;
         Config.format := Config.format config;
         Config.baseline := Config.baseline config;
         Config.comparison := Config.comparison config;
         Config.output := value |}
  | Threshold =>
      {| Config.threshold :=
           match value with
           | Some text => parseFloat text
           | None => nan
           end;
         Config.format := Config.format config;
         Config.baseline := Config.baseline config;
         Config.comparison := Config.comparison config;
         Config.output := Config.output config |}
  | Format =>
      {| Config.threshold := Config.threshold config;
         Config.format := value;
         Config.baseline := Config.baseline config;
         Config.comparison := Config.comparison config;
         Config.output := Config.output config |}
  end.

(** [for (let i = 0; i < args.length; i++) switch (args[i]) ...] from the
    remaining arguments on. *)
Fixpoint parseLoop (args : list string) (config : Config.t) : Config.t :=
  match args with
  | [] => config
  | arg :: rest =>
      match flagOf arg with
      | Some flag =>
          match rest with
          | [] => assign flag None config
          | value :: rest' => parseLoop rest' (assign flag (Some value) config)
          end
      | None => parseLoop rest config
      end
  end.

Definition initial : Config.t :=
  {| Config.threshold := ofQ 0.1;
     Config.format := Some "json";
     Config.baseline := None;
     Config.comparison := None;
     Config.output := None |}.

Definition parseArgs (args : list string) : Config.t := parseLoop args initial.

(** A command line written as flag and value pairs. *)
Definition pairsText (pairs : list (Flag * string)) : list string :=
  pairs ≫= λ '(flag, value), [flagText flag; value].

(** The text of a key, for the keys that hold text. *)
Definition textOf (flag : Flag) (config : Config.t) : option string :=
  match flag with
  | Baseline => Config.baseline config
  | Comparison => Config.comparison config
  | Output => Config.output config
  | Format => Config.format config
  | Threshold => None
  end.

End WithNumber.
End Cli.

(** ** Masks that mark the same positions *)

Definition sameMask (buffer buffer' : Buffer) (width height : Z) : Prop :=
  ∀ p, ClusterAnalyzer.inBounds width height p = true →
       ClusterAnalyzer._isDiffPixel buffer (ClusterAnalyzer.slot width p)
       = ClusterAnalyzer._isDiffPixel buffer' (ClusterAnalyzer.slot width p).

(** * Properties *)

(** ** The flood fill *)

Section FloodFill.
Import ClusterAnalyzer.
Variables (buffer : Buffer) (width height : Z).

Lemma Marked_visit (visited : gset Z) (found : list Pixel) (p : Pixel) :
  Marked buffer width height visited found →
  inBounds width height p = true →
  skips buffer visited (slot width p) = false →
  Marked buffer width height ({[slot width p]} ∪ visited) (found ++ [p]).
Proof.
  intros [Hnd Hv Hd Hf] Hin Hs.
  apply orb_false_iff in Hs as [Hnv Hdiff].
  apply bool_decide_eq_false in Hnv. apply negb_false_iff in Hdiff.
  split.
  - apply NoDup_app. split_and!; [done| |apply NoDup_singleton].
    intros q Hq Hq'. apply list_elem_of_singleton in Hq' as ->. auto.
  - intros q [Hq|Hq]%elem_of_app.
    + apply elem_of_union_r. auto.
    + apply list_elem_of_singleton in Hq as ->. apply elem_of_union_l.
      by apply elem_of_singleton.
  - intros q [Hq|Hq]%elem_of_app; [auto|].
    by apply list_elem_of_singleton in Hq as ->.
  - intros k [Hk|Hk]%elem_of_union.
    + apply elem_of_singleton in Hk as ->. exists p. split; [|done].
      apply elem_of_app. right. by apply list_elem_of_singleton.
    + destruct (Hf k Hk) as (q & Hq & Hk'). exists q. split; [|done].
      apply elem_of_app. by left.
Qed.

Lemma floodFill_spec (queue : list Pixel) (visited : gset Z)
    (clusterPixels : list Pixel) (size : Z)
    (visited' : gset Z) (pixels' : list Pixel) (size' : Z) :
  floodFill buffer width height queue visited clusterPixels size
  = (visited', pixels', size') →
  (∀ p, p ∈ queue → inBounds width height p = true) →
  ∃ more,
    pixels' = clusterPixels ++ more
    ∧ size' = size + len more
    ∧ visited ⊆ visited'
    ∧ ∀ prev, Marked buffer width height visited (prev ++ clusterPixels) →
              Marked buffer width height visited' (prev ++ pixels').
Proof.
  revert visited' pixels' size'.
  funelim (floodFill buffer width height queue visited clusterPixels size);
    intros visited' pixels' size' Hres Hq.
  - injection Hres as <- <- <-.
    exists []. rewrite app_nil_r. unfold len. simpl.
    split_and!; [done|lia|done|done].
  - apply (H _ _ _ Hres). intros q Hq'. apply Hq. by right.
  - destruct (H _ _ _ Hres) as (more & -> & -> & Hsub & Hinv).
    { intros q [Hq'|Hq']%elem_of_app.
      - apply Hq. by right.
      - unfold pushes in Hq'. apply list_elem_of_filter in Hq'. tauto. }
    exists (p :: more).
    split_and!.
    + by rewrite <- app_assoc.
    + unfold len. simpl length. lia.
    + set_solver.
    + intros prev HM. apply Hinv. rewrite app_assoc.
      apply Marked_visit; [done| |done]. apply Hq. by left.
Qed.

Lemma floodFill_visit (p : Pixel) (rest : list Pixel) (visited : gset Z)
    (clusterPixels : list Pixel) (size : Z) :
  skips buffer visited (slot width p) = false →
  floodFill buffer width height (p :: rest) visited clusterPixels size
  = floodFill buffer width height
              (rest ++ pushes width height ({[slot width p]} ∪ visited) p)
              ({[slot width p]} ∪ visited) (clusterPixels ++ [p]) (size + 1).
Proof.
  intros Hs. simp floodFill.
  destruct (sumbool_of_bool (skips buffer visited (slot width p))) as [E|E];
    [congruence|done].
Qed.

Lemma elem_of_coords (p : Pixel) :
  p ∈ coords width height ↔ inBounds width height p = true.
Proof.
  unfold coords, inBounds. destruct p as [x y]. simpl.
  rewrite list_elem_of_bind. setoid_rewrite list_elem_of_bind.
  setoid_rewrite list_elem_of_singleton. setoid_rewrite elem_of_seqZ.
  rewrite !andb_true_iff, !Z.leb_le, !Z.ltb_lt. split.
  - intros (y' & (x' & [= -> ->] & Hx) & Hy). lia.
  - intros Hxy. exists y. split; [|lia]. exists x. split; [done|lia].
Qed.

Lemma slot_inj (p q : Pixel) :
  inBounds width height p = true → inBounds width height q = true →
  slot width p = slot width q → p = q.
Proof.
  unfold inBounds, slot. destruct p as [x y], q as [x' y']. simpl.
  rewrite !andb_true_iff, !Z.leb_le, !Z.ltb_lt. intros Hp Hq Heq.
  assert (y = y') by nia. subst y'. f_equal. lia.
Qed.

End FloodFill.

(** ** The scan of [analyzeClusters] *)

Lemma fold_left_pointwise {A S : Type} (f g : S → A → S) (l : list A) (s : S) :
  (∀ s a, f s a = g s a) → fold_left f l s = fold_left g l s.
Proof.
  intros Hfg. revert s. induction l as [|a l IH]; intros s; [done|].
  simpl. by rewrite Hfg, IH.
Qed.

Lemma fold_left_bind {A B S : Type} (f : S → B → S) (g : A → list B)
    (l : list A) (s : S) :
  fold_left f (l ≫= g) s = fold_left (λ s a, fold_left f (g a) s) l s.
Proof.
  revert s. induction l as [|a l IH]; intros s; [done|].
  csimpl. by rewrite fold_left_app, IH.
Qed.

Section Scan.
Import ClusterAnalyzer.
Context `{JSNumber}.
Variables (this : ClusterAnalyzer.t) (buffer : Buffer) (width height : Z).

Lemma scan_coords :
  scan this buffer width height
  = fold_left (scanPixel this buffer width height) (coords width height) (∅, []).
Proof.
  unfold scan, coords. rewrite fold_left_bind.
  apply fold_left_pointwise. intros st y. by rewrite fold_left_bind.
Qed.

Lemma scanPixel_spec (st : gset Z * list Cluster.t) (p : Pixel) :
  inBounds width height p = true →
  scanned this buffer width height st →
  scanned this buffer width height (scanPixel this buffer width height st p)
  ∧ st.1 ⊆ (scanPixel this buffer width height st p).1
  ∧ (_isDiffPixel buffer (slot width p) = true →
     slot width p ∈ (scanPixel this buffer width height st p).1).
Proof.
  destruct st as [visited clusters]. intros Hin [HM Hb]. simpl in HM, Hb.
  unfold scanPixel.
  destruct (_isDiffPixel buffer (slot width p)) eqn:Hd; simpl.
  2: { split; [by split|]. split; [done|]. done. }
  destruct (bool_decide (slot width p ∈ visited)) eqn:Hv; simpl.
  { apply bool_decide_eq_true in Hv. split; [by split|]. by split. }
  assert (Hs : skips buffer visited (slot width p) = false).
  { unfold skips. by rewrite Hv, Hd. }
  unfold _findCluster. rewrite <- (surjective_pairing p).
  rewrite (floodFill_visit _ _ _ _ _ _ _ _ Hs). simpl.
  destruct (floodFill buffer width height _ _ _ _) as [[visited' pixels'] size']
    eqn:Hff.
  apply floodFill_spec in Hff as (more & -> & -> & Hsub & Hinv).
  2: { intros q Hq. unfold pushes in Hq. apply list_elem_of_filter in Hq. tauto. }
  simpl. split_and!.
  - split; simpl.
    + unfold allPixels. rewrite bind_app. simpl. rewrite app_nil_r.
      apply Hinv. simpl. by apply Marked_visit.
    + apply Forall_app. split; [done|]. apply Forall_singleton.
      unfold built. simpl. split_and!; try done. unfold len. simpl length. lia.
  - set_solver.
  - intros _. set_solver.
Qed.

Lemma scan_fold (l : list Pixel) (st : gset Z * list Cluster.t) :
  (∀ p, p ∈ l → inBounds width height p = true) →
  scanned this buffer width height st →
  scanned this buffer width height (fold_left (scanPixel this buffer width height) l st)
  ∧ st.1 ⊆ (fold_left (scanPixel this buffer width height) l st).1
  ∧ ∀ p, p ∈ l → _isDiffPixel buffer (slot width p) = true →
         slot width p ∈ (fold_left (scanPixel this buffer width height) l st).1.
Proof.
  revert st. induction l as [|q l IH]; intros st Hl Hst; simpl.
  { split; [done|]. split; [done|]. intros p Hp. by apply elem_of_nil in Hp. }
  destruct (scanPixel_spec st q) as (Hst' & Hsub & Hq); [apply Hl; by left|done|].
  destruct (IH (scanPixel this buffer width height st q)) as (Hfin & Hsub' & Hall);
    [intros p Hp; apply Hl; by right|done|].
  split; [done|]. split; [set_solver|].
  intros p [->|Hp]%elem_of_cons Hd; [|by apply Hall].
  apply Hsub'. by apply Hq.
Qed.

Lemma scan_spec :
  scanned this buffer width height (scan this buffer width height)
  ∧ ∀ p, inBounds width height p = true →
         _isDiffPixel buffer (slot width p) = true →
         p ∈ allPixels (scan this buffer width height).2.
Proof.
  rewrite scan_coords.
  destruct (scan_fold (coords width height) (∅, [])) as (Hsc & _ & Hall).
  { intros p. apply elem_of_coords. }
  { split; simpl; [|done]. split; simpl.
    - apply NoDup_nil_2.
    - intros p Hp. by apply elem_of_nil in Hp.
    - intros p Hp. by apply elem_of_nil in Hp.
    - intros k Hk. by apply not_elem_of_empty in Hk. }
  split; [done|]. intros p Hin Hd.
  destruct Hsc as [[_ _ Hdiff Hfound] _].
  destruct (Hfound (slot width p)) as (q & Hq & Heq).
  { apply Hall; [by apply elem_of_coords|done]. }
  destruct (Hdiff q Hq) as [Hqin _].
  by rewrite <- (slot_inj width height q p Hqin Hin Heq).
Qed.

End Scan.

(** ** Sums over clusters *)

Section Sums.
Import ClusterAnalyzer.

Lemma fold_sizes_from (l : list Cluster.t) (a : Z) :
  fold_left (λ sum cluster, sum + Cluster.size cluster) l a = a + sumSizes l.
Proof.
  unfold sumSizes. revert a. induction l as [|c l IH]; intros a; simpl; [lia|].
  rewrite (IH (a + _)), (IH (0 + _)). lia.
Qed.

Lemma sumSizes_cons (c : Cluster.t) (l : list Cluster.t) :
  sumSizes (c :: l) = Cluster.size c + sumSizes l.
Proof. unfold sumSizes at 1. simpl. rewrite fold_sizes_from. lia. Qed.

Lemma sumSizes_filter_mono (f g : Cluster.t → bool) (l : list Cluster.t) :
  (∀ c, c ∈ l → 0 ≤ Cluster.size c) →
  (∀ c, c ∈ l → f c = true → g c = true) →
  sumSizes (List.filter f l) ≤ sumSizes (List.filter g l)
  ∧ len (List.filter f l) ≤ len (List.filter g l).
Proof.
  unfold len. induction l as [|c l IH]; intros Hpos Hfg; simpl; [done|].
  destruct IH as [IH1 IH2].
  { intros c' Hc'. apply Hpos. by right. }
  { intros c' Hc'. apply Hfg. by right. }
  pose proof (Hpos c ltac:(by left)) as Hc.
  pose proof (Hfg c ltac:(by left)) as Hfgc.
  destruct (f c) eqn:Ef.
  - rewrite Hfgc by done. rewrite !sumSizes_cons. simpl length. lia.
  - destruct (g c); [|done]. rewrite sumSizes_cons. simpl length. lia.
Qed.

Lemma sumSizes_pixels (l : list Cluster.t) :
  Forall (λ c, Cluster.size c = len (Cluster.pixels c)) l →
  sumSizes l = len (l ≫= Cluster.pixels).
Proof.
  unfold len. induction 1 as [|c l Hc _ IH]; [done|].
  rewrite sumSizes_cons, IH, Hc. csimpl. rewrite length_app. unfold len. lia.
Qed.

End Sums.

(** ** Claims *)

Section Claims.
Import ClusterAnalyzer.
Context `{JSNumber}.

Lemma NoDup_bind_lookup {A B : Type} (f : A → list B) (l : list A)
    (i j : nat) (a b : A) (x : B) :
  NoDup (l ≫= f) → l !! i = Some a → l !! j = Some b →
  x ∈ f a → x ∈ f b → i = j.
Proof.
  revert i j. induction l as [|c l IH]; intros i j Hnd Hi Hj Ha Hb; [done|].
  csimpl in Hnd. apply NoDup_app in Hnd as (_ & Hdisj & Hnd).
  destruct i as [|i], j as [|j]; simpl in Hi, Hj.
  - done.
  - injection Hi as ->. exfalso. apply (Hdisj x Ha).
    apply list_elem_of_bind. exists b. split; [done|].
    by eapply list_elem_of_lookup_2.
  - injection Hj as ->. exfalso. apply (Hdisj x Hb).
    apply list_elem_of_bind. exists a. split; [done|].
    by eapply list_elem_of_lookup_2.
  - f_equal. by eapply IH.
Qed.

Lemma analyzeClusters_scanned (this : ClusterAnalyzer.t) (buffer : Buffer)
    (width height : Z) (options : Options.t) :
  Marked buffer width height (scan this buffer width height).1
         (allPixels (Analysis.clusters
                       (analyzeClusters this buffer width height options)))
  ∧ Forall (built this buffer width height)
           (Analysis.clusters (analyzeClusters this buffer width height options)).
Proof. apply scan_spec. Qed.

Lemma NoDup_coords (width height : Z) : NoDup (coords width height).
Proof.
  unfold coords. apply NoDup_bind; [| |apply NoDup_seqZ].
  - intros y1 y2 p _ _ (x1 & Hp1 & _)%list_elem_of_bind
                       (x2 & Hp2 & _)%list_elem_of_bind.
    apply list_elem_of_singleton in Hp1, Hp2. congruence.
  - intros y _. apply NoDup_bind; [| |apply NoDup_seqZ].
    + intros x1 x2 p _ _ Hp1 Hp2.
      apply list_elem_of_singleton in Hp1, Hp2. congruence.
    + intros x _. apply NoDup_singleton.
Qed.

Lemma clusters_diffPixels (this : ClusterAnalyzer.t) (buffer : Buffer)
    (width height : Z) (options : Options.t) :
  allPixels (Analysis.clusters (analyzeClusters this buffer width height options))
  ≡ₚ diffPixels buffer width height.
Proof.
  destruct (analyzeClusters_scanned this buffer width height options)
    as [[Hnd _ Hdiff _] _].
  apply NoDup_Permutation; [done| |].
  { unfold diffPixels. apply NoDup_filter, NoDup_coords. }
  intros p. unfold diffPixels. rewrite list_elem_of_filter, elem_of_coords.
  split.
  - intros Hp. destruct (Hdiff p Hp). done.
  - intros [Hd Hin]. by apply scan_spec.
Qed.

(** C2: the clusters partition the differing pixels of the mask.  Every
    in-bounds position whose slot holds the marker lies in the pixel list of
    exactly one cluster; no position occurs twice in the pixel lists taken
    together; every listed position is an in-bounds differing one; the
    pixel lists together are a rearrangement of the differing positions;
    and each cluster's [size] is the length of its pixel list. *)
Theorem clusters_partition (this : ClusterAnalyzer.t) (buffer : Buffer)
    (width height : Z) (options : Options.t) :
  let clusters :=
    Analysis.clusters (analyzeClusters this buffer width height options) in
  (∀ p, inBounds width height p = true →
        _isDiffPixel buffer (slot width p) = true →
        ∃ i c, clusters !! i = Some c ∧ p ∈ Cluster.pixels c
               ∧ ∀ j c', clusters !! j = Some c' → p ∈ Cluster.pixels c' → j = i)
  ∧ NoDup (clusters ≫= Cluster.pixels)
  ∧ (∀ c p, c ∈ clusters → p ∈ Cluster.pixels c →
            inBounds width height p = true
            ∧ _isDiffPixel buffer (slot width p) = true)
  ∧ (clusters ≫= Cluster.pixels) ≡ₚ diffPixels buffer width height
  ∧ (∀ c, c ∈ clusters → Cluster.size c = len (Cluster.pixels c)).
Proof.
  intros clusters.
  destruct (analyzeClusters_scanned this buffer width height options)
    as [[Hnd _ Hdiff _] Hb].
  fold clusters in Hnd, Hdiff, Hb. unfold allPixels in Hnd, Hdiff.
  split_and!.
  - intros p Hin Hd.
    assert (Hp : p ∈ clusters ≫= Cluster.pixels) by by apply scan_spec.
    apply list_elem_of_bind in Hp as (c & Hpc & Hc).
    apply list_elem_of_lookup_1 in Hc as [i Hi].
    exists i, c. split_and!; [done..|].
    intros j c' Hj Hpc'. by eapply (NoDup_bind_lookup Cluster.pixels clusters).
  - done.
  - intros c p Hc Hp. apply Hdiff. apply list_elem_of_bind. eauto.
  - apply clusters_diffPixels.
  - intros c Hc. rewrite Forall_forall in Hb. by destruct (Hb c Hc).
Qed.

Lemma elem_of_offsets8 (dx dy : Z) :
  (dx, dy) ∈ offsets8
  ↔ (dx, dy) ≠ (0, 0) ∧ -1 ≤ dx ≤ 1 ∧ -1 ≤ dy ≤ 1.
Proof.
  split.
  - intros Hd. vm_compute in Hd.
    repeat (apply elem_of_cons in Hd as [[= -> ->]|Hd]; [split; [done|lia]|]).
    by apply elem_of_nil in Hd.
  - intros (Hne & Hx & Hy).
    assert (Hdx : dx = -1 ∨ dx = 0 ∨ dx = 1) by lia.
    assert (Hdy : dy = -1 ∨ dy = 0 ∨ dy = 1) by lia.
    destruct Hdx as [-> | [-> | ->]], Hdy as [-> | [-> | ->]];
      try done; vm_compute; set_solver.
Qed.

Lemma elem_of_neighbours8 (p q : Pixel) : q ∈ neighbours8 p ↔ adjacent8 p q.
Proof.
  unfold neighbours8, adjacent8. rewrite list_elem_of_fmap.
  destruct p as [x y], q as [x' y']. simpl. split.
  - intros ([dx dy] & [= -> ->] & Hd). simpl.
    apply elem_of_offsets8 in Hd as (Hne & Hx & Hy).
    split; [|lia]. intros [= ? ?]. apply Hne. f_equal; lia.
  - intros (Hne & Hx & Hy).
    exists (x' - x, y' - y). split; [simpl; f_equal; lia|].
    apply elem_of_offsets8. split; [|lia].
    intros [= ? ?]. apply Hne. f_equal; lia.
Qed.

Lemma NoDup_neighbours8 (p : Pixel) : NoDup (neighbours8 p).
Proof.
  unfold neighbours8. apply NoDup_fmap_2.
  - intros [a b] [c d] [= ? ?]. f_equal; lia.
  - vm_compute. repeat (apply NoDup_cons; split; [set_solver|]). apply NoDup_nil_2.
Qed.

Lemma fold_count {A : Type} (P : A → Prop) `{∀ x, Decision (P x)}
    (f : A → bool) (l : list A) (a : Z) :
  (∀ x, f x = true ↔ P x) →
  fold_left (λ n x, if f x then n + 1 else n) l a = a + len (filter P l).
Proof.
  intros Hf. unfold len. revert a.
  induction l as [|x l IH]; intros a; simpl; [lia|].
  rewrite IH, filter_cons. destruct (f x) eqn:E.
  - rewrite decide_True by by apply Hf. simpl length. lia.
  - rewrite decide_False; [lia|]. rewrite <- Hf. congruence.
Qed.

Lemma countNeighbors_spec (buffer : Buffer) (width height : Z) (p : Pixel) :
  countNeighbors buffer width height p
  = len (differingNeighbours buffer width height p).
Proof.
  unfold countNeighbors, differingNeighbours.
  rewrite (fold_count (λ q, inBounds width height q = true
                            ∧ _isDiffPixel buffer (slot width q) = true)).
  - lia.
  - intros q. apply andb_true_iff.
Qed.

Lemma countLinelike_spec (buffer : Buffer) (width height : Z)
    (pixels : list Pixel) :
  countLinelike buffer width height pixels
  = len (filter (lineLike buffer width height) pixels).
Proof.
  unfold countLinelike.
  rewrite (fold_count (lineLike buffer width height)).
  - lia.
  - intros q. unfold lineLike. rewrite countNeighbors_spec. apply Z.leb_le.
Qed.

(** C10: the differs-test reads the first three bytes of the slot and
    nothing else.  It answers true exactly when they are 255, 0, 0; writing
    any value into the alpha byte leaves the answer unchanged; a slot that
    starts 255, 255 (the anti-aliasing yellow) is not differing; and a
    position whose slot fails the test is in no cluster. *)
Theorem isDiffPixel_marker (this : ClusterAnalyzer.t) (buffer : Buffer)
    (width height : Z) (options : Options.t) :
  (∀ pos, _isDiffPixel buffer pos = true
          ↔ readByte buffer pos = Some 255
            ∧ readByte buffer (pos + 1) = Some 0
            ∧ readByte buffer (pos + 2) = Some 0)
  ∧ (∀ pos a, _isDiffPixel (<[Z.to_nat (pos + 3) := a]> buffer) pos
              = _isDiffPixel buffer pos)
  ∧ (∀ pos, readByte buffer pos = Some 255 →
            readByte buffer (pos + 1) = Some 255 →
            _isDiffPixel buffer pos = false)
  ∧ (∀ p c, _isDiffPixel buffer (slot width p) = false →
            c ∈ Analysis.clusters
                  (analyzeClusters this buffer width height options) →
            p ∉ Cluster.pixels c).
Proof.
  assert (Hbyte : ∀ o b, byteIs o b = true ↔ o = Some b).
  { intros [v|] b; simpl; [|done]. rewrite Z.eqb_eq. split; congruence. }
  split_and!.
  - intros pos. unfold _isDiffPixel. rewrite !andb_true_iff, !Hbyte. tauto.
  - intros pos a. unfold _isDiffPixel, readByte.
    destruct (pos <? 0) eqn:Hneg; [done|]. apply Z.ltb_ge in Hneg.
    rewrite !(proj2 (Z.ltb_ge _ _)) by lia.
    rewrite !list_lookup_insert_ne by lia. done.
  - intros pos H0 H1. unfold _isDiffPixel. rewrite H0, H1. done.
  - intros p c Hd Hc Hp.
    destruct (analyzeClusters_scanned this buffer width height options)
      as [[_ _ Hdiff _] _].
    destruct (Hdiff p) as [_ Hd']; [|congruence].
    apply list_elem_of_bind. eauto.
Qed.

(** X21: the line-shift rule as the analyzer applies it.  The eight
    neighbours of a pixel are the positions adjacent to it, each once; the
    count the code keeps for a pixel is the number of those that are in
    bounds and differing in the mask; the line-like count of a pixel list is
    the number of its pixels with at most two such neighbours; a cluster the
    analyzer returns has [isLineShift] equal to the test "line-like count /
    size > the [lineShiftThreshold] the analyzer was constructed with",
    whatever the options handed to [analyzeClusters] hold for that key; and
    an empty pixel list is never a line shift. *)
Theorem lineShift_classification (this : ClusterAnalyzer.t) (buffer : Buffer)
    (width height : Z) (options : Options.t) :
  (∀ p q, q ∈ neighbours8 p ↔ adjacent8 p q)
  ∧ (∀ p, NoDup (neighbours8 p))
  ∧ (∀ p, countNeighbors buffer width height p
          = len (differingNeighbours buffer width height p))
  ∧ (∀ pixels, countLinelike buffer width height pixels
               = len (filter (lineLike buffer width height) pixels))
  ∧ (∀ c, c ∈ Analysis.clusters
                (analyzeClusters this buffer width height options) →
          0 < Cluster.size c
          ∧ Cluster.isLineShift c
            = ngt (ndiv (ofZ (len (filter (lineLike buffer width height)
                                          (Cluster.pixels c))))
                        (ofZ (Cluster.size c)))
                  (getNum (Options.lineShiftThreshold
                             (ClusterAnalyzer.options this))))
  ∧ _detectLineShift this [] buffer width height = false.
Proof.
  split_and!.
  - apply elem_of_neighbours8.
  - apply NoDup_neighbours8.
  - apply countNeighbors_spec.
  - apply countLinelike_spec.
  - intros c Hc.
    destruct (analyzeClusters_scanned this buffer width height options)
      as [_ Hb].
    rewrite Forall_forall in Hb. destruct (Hb c Hc) as (Hsz & Hne & Hls & _).
    assert (Hpos : 0 < len (Cluster.pixels c)).
    { unfold len. destruct (Cluster.pixels c); [done|simpl; lia]. }
    split; [lia|]. rewrite Hls. unfold _detectLineShift.
    rewrite (proj2 (Z.eqb_neq _ _)) by lia.
    by rewrite countLinelike_spec, Hsz.
  - done.
Qed.

(** C9: raising [minClusterSize] cannot raise the significant counts.  For
    one analyzer, mask and size, if the threshold of the first options is
    at most that of the second, the second analysis reports no more
    significant clusters and no more significant pixels than the first. *)
Theorem minClusterSize_monotone (this : ClusterAnalyzer.t) (buffer : Buffer)
    (width height : Z) (options1 options2 : Options.t) :
  nle (getNum (Options.minClusterSize options1))
      (getNum (Options.minClusterSize options2)) = true →
  Analysis.significantClusters
    (analyzeClusters this buffer width height options2)
  ≤ Analysis.significantClusters
      (analyzeClusters this buffer width height options1)
  ∧ Analysis.significantPixels
      (analyzeClusters this buffer width height options2)
    ≤ Analysis.significantPixels
        (analyzeClusters this buffer width height options1).
Proof.
  intros Hle. unfold analyzeClusters. simpl.
  destruct (scan_spec this buffer width height) as [[_ Hb] _].
  rewrite Forall_forall in Hb.
  destruct (sumSizes_filter_mono (significant options2) (significant options1)
              (scan this buffer width height).2) as [Hsum Hlen].
  - intros c Hc. destruct (Hb c Hc) as [-> _]. unfold len. lia.
  - intros c _. unfold significant. rewrite !andb_true_iff.
    intros [Hls Hge]. split; [done|]. by eapply nge_nle_trans.
  - split; [done|]. apply Hsum.
Qed.

End Claims.

(** ** The comparison *)

Section Comparison.
Import ClusterAnalyzer.
Context `{Collaborators}.

(** What a comparison that returns went through. *)
Lemma compare_returns (this : ImageComparator.t) (actual expected : ImageInput)
    (options : Options.t) (log : list Call) (r : Result.t) :
  ImageComparator.compare this actual expected options = (log, inr r) →
  let mergedOptions :=
    Options.spread (ImageComparator.this_options this) options in
  ∃ processed diffCount diffBuffer,
    ImageProcessor.processImages actual expected mergedOptions = inr processed
    ∧ pixelmatch
        (ImageData.data (Processed.actualImageData processed))
        (ImageData.data (Processed.expectedImageData processed))
        (replicate (Z.to_nat (Processed.width processed
                              * Processed.height processed * 4)) 0)
        (Processed.width processed) (Processed.height processed)
        (matchOptions mergedOptions)
      = inr (diffCount, diffBuffer)
    ∧ Result.diffCount r = diffCount
    ∧ Result.diffImageData r
      = ImageComparator.createImageData diffBuffer (Processed.width processed)
                                        (Processed.height processed)
    ∧ ((diffCount = 0
        ∧ log = [ProcessImages; Pixelmatch]
        ∧ Result.ok r = true
        ∧ Result.details r
          = {| Details.totalDiffPixels := 0;
               Details.significantDiffPixels := 0;
               Details.clusters := [];
               Details.analysis := None |})
       ∨ (diffCount ≠ 0
          ∧ log = [ProcessImages; Pixelmatch; AnalyzeClusters]
          ∧ let analysis :=
              analyzeClusters (ImageComparator.clusterAnalyzer this) diffBuffer
                              (Processed.width processed)
                              (Processed.height processed) mergedOptions in
            Result.ok r
            = ImageComparator._evaluateSignificance analysis mergedOptions
            ∧ Result.details r
              = {| Details.totalDiffPixels := diffCount;
                   Details.significantDiffPixels :=
                     Analysis.significantPixels analysis;
                   Details.clusters := Analysis.clusters analysis;
                   Details.analysis := Some analysis |})).
Proof.
  intros Hc mergedOptions.
  unfold ImageComparator.compare, ImageComparator._validateInputs in Hc.
  fold mergedOptions in Hc.
  destruct (ImageComparator.missing actual || ImageComparator.missing expected);
    [done|].
  simpl in Hc.
  destruct (ImageProcessor.processImages actual expected mergedOptions)
    as [e|processed]; [done|].
  simpl in Hc. fold (matchOptions mergedOptions) in Hc.
  destruct (pixelmatch _ _ _ _ _ _) as [e|[diffCount diffBuffer]] eqn:Hpm;
    [done|].
  simpl in Hc. exists processed, diffCount, diffBuffer.
  split; [done|]. split; [done|].
  destruct (diffCount =? 0) eqn:Hz; simpl in Hc;
    injection Hc as <- <-; simpl.
  - apply Z.eqb_eq in Hz. split; [done|]. split; [done|]. left. done.
  - apply Z.eqb_neq in Hz. split; [done|]. split; [done|]. right. done.
Qed.

(** C1: the verdict.  A comparison that returns a result reports the count
    [pixelmatch] gave for the two processed images.  When that count is 0
    the result is [ok] with an empty cluster list and no significant
    pixels, and the analyzer was not called.  Otherwise the analyzer ran on the diff buffer, and [ok] holds
    exactly when its significant pixels are 0, or its significant pixels
    are at most [maxTotalDiffPixels] and its significant clusters at most
    [maxSignificantClusters]. *)
Theorem compare_verdict (this : ImageComparator.t) (actual expected : ImageInput)
    (options : Options.t) (log : list Call) (r : Result.t) :
  ImageComparator.compare this actual expected options = (log, inr r) →
  let mergedOptions :=
    Options.spread (ImageComparator.this_options this) options in
  (∃ processed,
     ImageProcessor.processImages actual expected mergedOptions = inr processed
     ∧ pixelmatch
         (ImageData.data (Processed.actualImageData processed))
         (ImageData.data (Processed.expectedImageData processed))
         (replicate (Z.to_nat (Processed.width processed
                               * Processed.height processed * 4)) 0)
         (Processed.width processed) (Processed.height processed)
         (matchOptions mergedOptions)
       = inr (Result.diffCount r, ImageData.data (Result.diffImageData r)))
  ∧ (Result.diffCount r = 0 →
     Result.ok r = true
     ∧ Details.clusters (Result.details r) = []
     ∧ Details.significantDiffPixels (Result.details r) = 0
     ∧ AnalyzeClusters ∉ log)
  ∧ (Result.diffCount r ≠ 0 →
     ∃ analysis,
       Details.analysis (Result.details r) = Some analysis
       ∧ analysis
         = analyzeClusters (ImageComparator.clusterAnalyzer this)
                           (ImageData.data (Result.diffImageData r))
                           (ImageData.width (Result.diffImageData r))
                           (ImageData.height (Result.diffImageData r))
                           mergedOptions
       ∧ AnalyzeClusters ∈ log
       ∧ (Result.ok r = true
          ↔ Analysis.significantPixels analysis = 0
            ∨ (nle (ofZ (Analysis.significantPixels analysis))
                   (getNum (Options.maxTotalDiffPixels mergedOptions)) = true
               ∧ nle (ofZ (Analysis.significantClusters analysis))
                     (getNum (Options.maxSignificantClusters mergedOptions))
                 = true))).
Proof.
  intros Hc mergedOptions.
  apply compare_returns in Hc
    as (processed & diffCount & diffBuffer & Hp & Hpm & Hn & Himg & Hcase).
  fold mergedOptions in Hcase, Hp, Hpm. rewrite Hn, Himg. simpl.
  split; [by exists processed|].
  destruct Hcase as [(Hz & -> & Hok & Hd) | (Hnz & -> & Hok & Hd)].
  - split; [|done]. intros _. rewrite Hok, Hd. simpl.
    split_and!; [done..|]. set_solver.
  - split; [done|]. intros _. rewrite Hd. simpl.
    eexists. split; [done|]. split; [done|]. split; [set_solver|].
    rewrite Hok. unfold ImageComparator._evaluateSignificance.
    rewrite orb_true_iff, andb_true_iff, Z.eqb_eq. done.
Qed.

Lemma sumSizes_filter_le (f : Cluster.t → bool) (l : list Cluster.t) :
  (∀ c, c ∈ l → 0 ≤ Cluster.size c) →
  sumSizes (List.filter f l) ≤ sumSizes l.
Proof.
  induction l as [|c l IH]; intros Hpos; simpl; [done|].
  pose proof (Hpos c ltac:(by left)) as Hc.
  assert (IH' : sumSizes (List.filter f l) ≤ sumSizes l).
  { apply IH. intros c' Hc'. apply Hpos. by right. }
  destruct (f c); rewrite ?sumSizes_cons; lia.
Qed.

(** C4: the significant pixels of a comparison with a positive diff count.
    [details.significantDiffPixels] is the sum of the sizes of the reported
    clusters that are not line shifts and whose size is at least the
    [minClusterSize] in effect; and, when the diff provider's count is the
    number of pixels it marked, that sum is at most [diffCount]. *)
Theorem significantDiffPixels_sum (this : ImageComparator.t)
    (actual expected : ImageInput) (options : Options.t) (log : list Call)
    (r : Result.t) :
  countsMarkers →
  ImageComparator.compare this actual expected options = (log, inr r) →
  0 < Result.diffCount r →
  let mergedOptions :=
    Options.spread (ImageComparator.this_options this) options in
  Details.significantDiffPixels (Result.details r)
  = sumSizes
      (List.filter
         (λ c, negb (Cluster.isLineShift c)
               && nge (ofZ (Cluster.size c))
                      (getNum (Options.minClusterSize mergedOptions)))
         (Details.clusters (Result.details r)))
  ∧ Details.significantDiffPixels (Result.details r) ≤ Result.diffCount r
  ∧ Details.totalDiffPixels (Result.details r) = Result.diffCount r.
Proof.
  intros Hcontract Hc Hpos mergedOptions.
  apply compare_returns in Hc
    as (processed & diffCount & diffBuffer & _ & Hpm & Hn & _ & Hcase).
  fold mergedOptions in Hcase.
  destruct Hcase as [(Hz & _) | (_ & _ & _ & Hd)]; [lia|].
  rewrite Hd, Hn. simpl. split; [done|]. split; [|done].
  apply Hcontract in Hpm. rewrite Hpm.
  unfold len at 1.
  rewrite <- (Permutation_length
                (clusters_diffPixels (ImageComparator.clusterAnalyzer this)
                                     diffBuffer _ _ mergedOptions)).
  fold (len (allPixels (Analysis.clusters
    (analyzeClusters (ImageComparator.clusterAnalyzer this) diffBuffer
       (Processed.width processed) (Processed.height processed)
       mergedOptions)))).
  destruct (analyzeClusters_scanned (ImageComparator.clusterAnalyzer this)
              diffBuffer (Processed.width processed)
              (Processed.height processed) mergedOptions) as [_ Hb].
  unfold allPixels. rewrite <- sumSizes_pixels.
  - apply sumSizes_filter_le. intros c Hc. rewrite Forall_forall in Hb.
    destruct (Hb c Hc) as [-> _]. unfold len. lia.
  - eapply Forall_impl; [exact Hb|]. by intros c [? _].
Qed.

(** What [processImages] returns, when it returns. *)
Lemma processImages_returns (actual expected : ImageInput)
    (options : Options.t) (processed : Processed.t) :
  ImageProcessor.processImages actual expected options = inr processed →
  ∃ actualCanvas expectedCanvas color,
    ImageProcessor._toCanvas actual = inr actualCanvas
    ∧ ImageProcessor._toCanvas expected = inr expectedCanvas
    ∧ Options.backgroundColor options = Some color
    ∧ let scale :=
        ImageProcessor._calculateScale expectedCanvas
                                       (getNum (Options.maxSide options)) in
      let width := nceil (nmul (ofZ (Canvas.width expectedCanvas)) scale) in
      let height := nceil (nmul (ofZ (Canvas.height expectedCanvas)) scale) in
      processed
      = {| Processed.actualImageData :=
             {| ImageData.data :=
                  drawOnBackground
                    color (ImageProcessor._resizeImage actualCanvas scale)
                    width height;
                ImageData.width := width; ImageData.height := height |};
           Processed.expectedImageData :=
             {| ImageData.data :=
                  drawOnBackground
                    color (ImageProcessor._resizeImage expectedCanvas scale)
                    width height;
                ImageData.width := width; ImageData.height := height |};
           Processed.width := width; Processed.height := height |}.
Proof.
  unfold ImageProcessor.processImages. intros Hp.
  destruct (ImageProcessor._toCanvas actual) as [e|actualCanvas]; [done|].
  destruct (ImageProcessor._toCanvas expected) as [e|expectedCanvas]; [done|].
  simpl in Hp. unfold ImageProcessor._createStandardizedCanvas in Hp.
  destruct (Options.backgroundColor options) as [color|]; [|done].
  simpl in Hp. unfold ImageProcessor.getImageData in Hp.
  destruct (_ =? 0); [done|]. destruct (_ =? 0); [done|].
  simpl in Hp. injection Hp as <-.
  by exists actualCanvas, expectedCanvas, color.
Qed.

Lemma calculateScale_spec (canvas : Canvas.t) (maxSide : num) :
  0 < Canvas.width canvas < 2 ^ 53 →
  0 < Canvas.height canvas < 2 ^ 53 →
  ImageProcessor._calculateScale canvas maxSide
  = let scale := nmin (ndiv maxSide (ofZ (Canvas.width canvas)))
                      (ndiv maxSide (ofZ (Canvas.height canvas))) in
    if Canvas.width canvas =? Canvas.height canvas
    then scale else nmul scale (ofZ 2).
Proof.
  intros Hw Hh. unfold ImageProcessor._calculateScale, ofZ.
  change (inject_Z 1) with 1%Q.
  rewrite (ndiv_one _ _ Hw Hh). by destruct (_ =? _).
Qed.

Lemma batch_entries (this : VisualComparisonEngine.t)
    (mergedOptions : Options.t) (pairs : list Pair.t)
    (log : list Call) (results : list BatchEntry) :
  (fold_left
     (λ '(log, results) pair,
        match ImageComparator.compare
                (VisualComparisonEngine.comparator this) (Pair.actual pair)
                (Pair.expected pair) mergedOptions with
        | (log', inr result) =>
            (log ++ log', results ++ [Compared (Pair.name pair) result])
        | (log', inl error) =>
            (log ++ log',
             results ++ [Failed (Pair.name pair) false (JSError.message error)])
        end)
     pairs (log, results)).2
  = results
    ++ ((λ pair,
           match (ImageComparator.compare
                    (VisualComparisonEngine.comparator this) (Pair.actual pair)
                    (Pair.expected pair) mergedOptions).2 with
           | inr result => Compared (Pair.name pair) result
           | inl error => Failed (Pair.name pair) false (JSError.message error)
           end) <$> pairs).
Proof.
  revert log results. induction pairs as [|pair pairs IH]; intros log results.
  { simpl. by rewrite app_nil_r. }
  simpl.
  destruct (ImageComparator.compare _ _ _ _) as [log' [error|result]];
    rewrite IH, <- app_assoc; done.
Qed.

(** C7: a batch yields one entry per pair, in order.  The result list is as
    long as the list of pairs, and its entry at an index is decided by the
    comparison of the pair at that index alone: the pair's name with the
    comparison's result when it returns, and the pair's name with
    [ok: false] and the error's message when it throws. *)
Theorem batchCompare_entries (this : VisualComparisonEngine.t)
    (imagePairs : list Pair.t) (options : Options.t) :
  let mergedOptions :=
    Options.spread (VisualComparisonEngine.this_options this) options in
  let results := (VisualComparisonEngine.batchCompare this imagePairs options).2 in
  length results = length imagePairs
  ∧ ∀ i pair, imagePairs !! i = Some pair →
      match (ImageComparator.compare
               (VisualComparisonEngine.comparator this) (Pair.actual pair)
               (Pair.expected pair) mergedOptions).2 with
      | inr result => results !! i = Some (Compared (Pair.name pair) result)
      | inl error =>
          results !! i
          = Some (Failed (Pair.name pair) false (JSError.message error))
      end.
Proof.
  intros mergedOptions results. subst results.
  unfold VisualComparisonEngine.batchCompare. fold mergedOptions.
  rewrite batch_entries. simpl. split; [by rewrite length_fmap|].
  intros i pair Hi. rewrite list_lookup_fmap, Hi. simpl.
  by destruct (ImageComparator.compare _ _ _ _).2.
Qed.

(** C6, as the code has it: when the actual or the expected image is
    missing, the comparator throws a [ValidationError] before it enters any
    stage of the pipeline, and the engine's [compare] hands the caller a
    [ComparisonError] whose cause is that [ValidationError] and whose
    message is the validation message prefixed with "Comparison failed: ". *)
Theorem missing_input_wrapped (this : VisualComparisonEngine.t)
    (actual expected : ImageInput) (options : Options.t) :
  ImageComparator.missing actual = true
  ∨ ImageComparator.missing expected = true →
  (∀ comparator options',
     ImageComparator.compare comparator actual expected options'
     = ([], inl (ValidationError requiredMessage)))
  ∧ VisualComparisonEngine.compare this actual expected options
    = ([], inl (ComparisonError ("Comparison failed: " +:+ requiredMessage)
                                (ValidationError requiredMessage))).
Proof.
  intros Hm.
  assert (Hor : ImageComparator.missing actual
                || ImageComparator.missing expected = true).
  { apply orb_true_iff. done. }
  assert (Hcmp : ∀ comparator options',
            ImageComparator.compare comparator actual expected options'
            = ([], inl (ValidationError requiredMessage))).
  { intros comparator options'.
    unfold ImageComparator.compare, ImageComparator._validateInputs.
    by rewrite Hor. }
  split; [done|]. unfold VisualComparisonEngine.compare. by rewrite Hcmp.
Qed.

(** The engine's [compare] returns exactly what its comparator returns on
    the merged options; only what is thrown changes on the way. *)
Lemma engine_compare_returns (this : VisualComparisonEngine.t)
    (actual expected : ImageInput) (options : Options.t) (log : list Call)
    (r : Result.t) :
  VisualComparisonEngine.compare this actual expected options = (log, inr r)
  ↔ ImageComparator.compare
      (VisualComparisonEngine.comparator this) actual expected
      (Options.spread (VisualComparisonEngine.this_options this) options)
    = (log, inr r).
Proof.
  unfold VisualComparisonEngine.compare.
  destruct (ImageComparator.compare _ _ _ _) as [log' [e|r']]; split;
    congruence.
Qed.

(** The constructor's [||] fallbacks only ever fill keys that the caller's
    object lacks, since the trailing spread restores every key the caller
    gave. *)
Lemma constructor_options (options : Options.t) :
  VisualComparisonEngine.options (VisualComparisonEngine.new options)
  = Options.spread defaults options.
Proof.
  destruct options as [[?|] [?|] [?|] [?|] [?|] [?|] [?|] [?|] [?|]]; reflexivity.
Qed.

Lemma spread_absorb (a b : Options.t) :
  Options.spread a (Options.spread a b) = Options.spread a b.
Proof.
  assert (Hover : ∀ (A : Type) (x y : option A),
            Options.over x (Options.over x y) = Options.over x y).
  { intros A [x|] [y|]; reflexivity. }
  unfold Options.spread. simpl. f_equal; apply Hover.
Qed.

(** The options a comparison started through the engine works with: per
    key, the caller's override, else the instance option, else the default. *)
Lemma engine_cascade (instance override : Options.t) :
  Options.spread
    (ImageComparator.this_options
       (VisualComparisonEngine.comparator (VisualComparisonEngine.new instance)))
    (Options.spread
       (VisualComparisonEngine.this_options (VisualComparisonEngine.new instance))
       override)
  = Options.spread (Options.spread defaults instance) override.
Proof.
  change (ImageComparator.this_options
            (VisualComparisonEngine.comparator
               (VisualComparisonEngine.new instance)))
    with (VisualComparisonEngine.options (VisualComparisonEngine.new instance)).
  change (VisualComparisonEngine.this_options
            (VisualComparisonEngine.new instance))
    with (VisualComparisonEngine.options (VisualComparisonEngine.new instance)).
  by rewrite spread_absorb, constructor_options.
Qed.

(** The [lineShiftThreshold] of the per-call options is never read: the
    analyzer takes it from the options it was constructed with. *)
Lemma compare_ignores_lineShiftThreshold (this : VisualComparisonEngine.t)
    (actual expected : ImageInput) (options : Options.t) (value : option num) :
  VisualComparisonEngine.compare this actual expected
                                 (withLineShiftThreshold options value)
  = VisualComparisonEngine.compare this actual expected options.
Proof. reflexivity. Qed.

End Comparison.

(** ** Statements that run the code on exact numbers *)

(** C5: the canonical size.  Whenever [processImages] returns, both inputs
    were turned into canvases, one scale was computed from the expected
    canvas (for positive dimensions: the smaller of [maxSide / width] and
    [maxSide / height], doubled exactly when width and height differ), both
    canvases were resized by that scale and drawn on background canvases
    of the resized expected image's size, and the two image data returned
    have that same width and height.  With exact arithmetic, a 100x200
    expected canvas and [maxSide] 800 give scale 8 and two 800x1600 image
    data, whatever the actual image. *)
Theorem canonical_size :
  (∀ (N : JSNumber) (C : Collaborators)
     (actual expected : ImageInput) (options : Options.t)
     (processed : Processed.t),
     ImageProcessor.processImages actual expected options = inr processed →
     ∃ actualCanvas expectedCanvas color,
       ImageProcessor._toCanvas actual = inr actualCanvas
       ∧ ImageProcessor._toCanvas expected = inr expectedCanvas
       ∧ Options.backgroundColor options = Some color
       ∧ let maxSide := getNum (Options.maxSide options) in
         let scale := ImageProcessor._calculateScale expectedCanvas maxSide in
         let resizedActual := ImageProcessor._resizeImage actualCanvas scale in
         let resizedExpected :=
           ImageProcessor._resizeImage expectedCanvas scale in
         (0 < Canvas.width expectedCanvas < 2 ^ 53 →
          0 < Canvas.height expectedCanvas < 2 ^ 53 →
          scale
          = let fit :=
              nmin (ndiv maxSide (ofZ (Canvas.width expectedCanvas)))
                   (ndiv maxSide (ofZ (Canvas.height expectedCanvas))) in
            if Canvas.width expectedCanvas =? Canvas.height expectedCanvas
            then fit else nmul fit (ofZ 2))
         ∧ Processed.width processed = Canvas.width resizedExpected
         ∧ Processed.height processed = Canvas.height resizedExpected
         ∧ Canvas.width resizedExpected
           = nceil (nmul (ofZ (Canvas.width expectedCanvas)) scale)
         ∧ Canvas.height resizedExpected
           = nceil (nmul (ofZ (Canvas.height expectedCanvas)) scale)
         ∧ Processed.actualImageData processed
           = {| ImageData.data :=
                  drawOnBackground color resizedActual
                                   (Processed.width processed)
                                   (Processed.height processed);
                ImageData.width := Processed.width processed;
                ImageData.height := Processed.height processed |}
         ∧ Processed.expectedImageData processed
           = {| ImageData.data :=
                  drawOnBackground color resizedExpected
                                   (Processed.width processed)
                                   (Processed.height processed);
                ImageData.width := Processed.width processed;
                ImageData.height := Processed.height processed |})
  ∧ (∀ (C : @Collaborators QNumber.number)
       (actual : ImageInput) (actualCanvas : Canvas.t)
       (baseline : Buffer) (color : list Z)
       (options : @Options.t QNumber.number),
       ImageProcessor._toCanvas actual = inr actualCanvas →
       Options.maxSide options = Some (ofZ 800) →
       Options.backgroundColor options = Some color →
       let expectedCanvas :=
         {| Canvas.width := 100; Canvas.height := 200;
            Canvas.data := baseline |} in
       nseq (ImageProcessor._calculateScale expectedCanvas (ofZ 800))
            (ofZ 8) = true
       ∧ ∃ processed,
           ImageProcessor.processImages actual (ACanvas expectedCanvas) options
           = inr processed
           ∧ Processed.width processed = 800
           ∧ Processed.height processed = 1600
           ∧ ImageData.width (Processed.actualImageData processed) = 800
           ∧ ImageData.height (Processed.actualImageData processed) = 1600
           ∧ ImageData.width (Processed.expectedImageData processed) = 800
           ∧ ImageData.height (Processed.expectedImageData processed) = 1600).
Proof.
  split.
  - intros N C actual expected options processed Hp.
    apply processImages_returns in Hp
      as (actualCanvas & expectedCanvas & color & Ha & He & Hc & ->).
    exists actualCanvas, expectedCanvas, color.
    split; [done|]. split; [done|]. split; [done|]. simpl.
    split_and!; try done. apply calculateScale_spec.
  - intros C actual actualCanvas baseline color options Ha Hm Hc expectedCanvas.
    split; [by vm_compute|].
    unfold ImageProcessor.processImages.
    rewrite Ha, Hm, Hc. simpl. eexists. split; [done|]. simpl.
    split_and!; by vm_compute.
Qed.

(** ** Runs on small images *)

(** C6, as stated, fails: with the expected image missing, what reaches the
    caller of the engine's [compare] is a [ComparisonError], not a
    [ValidationError]. *)
Lemma missing_input_not_ValidationError :
  ∃ e, VisualComparisonEngine.compare Sample.engine Sample.black Missing
                                      Options.empty
       = ([], inl e)
       ∧ JSError.name e = "ComparisonError"
       ∧ JSError.name e ≠ "ValidationError"
       ∧ JSError.cause e = Some (ValidationError requiredMessage).
Proof. eexists. split; [by vm_compute|]. by vm_compute. Qed.

Lemma missing_input_wrapped_witness :
  VisualComparisonEngine.compare Sample.engine Sample.black Missing Options.empty
  = ([], inl (ComparisonError ("Comparison failed: " +:+ requiredMessage)
                              (ValidationError requiredMessage))).
Proof.
  apply (missing_input_wrapped Sample.engine Sample.black Missing Options.empty).
  right. reflexivity.
Defined.

(** C8 at its failing input: a default engine is asked to compare a black
    and a white pixel with per-call options that set [lineShiftThreshold]
    to 1.  The one-pixel cluster has ratio 1, which is not above 1, yet it
    is classified as a line shift (the analyzer compared with the 0.8 it was
    constructed with) and the comparison passes; an engine constructed with
    threshold 1 and given the same options fails it. *)
Theorem lineShiftThreshold_override_not_applied :
  Options.lineShiftThreshold
    (Options.spread (VisualComparisonEngine.this_options Sample.engine)
                    Sample.override)
  = Some (ofZ 1)
  ∧ (∃ log r,
       VisualComparisonEngine.compare Sample.engine Sample.black Sample.white
                                      Sample.override
       = (log, inr r)
       ∧ Result.ok r = true
       ∧ Details.significantDiffPixels (Result.details r) = 0
       ∧ ClusterAnalyzer.Cluster.isLineShift
           <$> Details.clusters (Result.details r) = [true])
  ∧ (∃ log r,
       VisualComparisonEngine.compare Sample.strictEngine Sample.black Sample.white
                                      Sample.override
       = (log, inr r)
       ∧ Result.ok r = false
       ∧ Details.significantDiffPixels (Result.details r) = 1
       ∧ ClusterAnalyzer.Cluster.isLineShift
           <$> Details.clusters (Result.details r) = [false]).
Proof.
  split; [by vm_compute|].
  split; do 2 eexists; (split; [by vm_compute|]); by vm_compute.
Qed.

(** C3 at its failing input: the same call.  The analyzer is handed the
    merged options, in which the configured [lineShiftThreshold] is 1, and
    returns one cluster of one pixel.  That pixel is line-like, so the
    ratio of line-like pixels to the cluster size is 1, which is not
    strictly greater than the configured 1; the cluster is classified as a
    line shift all the same, because the test read the 0.8 that the
    analyzer was constructed with. *)
Theorem lineShift_not_by_configured_threshold :
  let configured :=
    Options.spread (VisualComparisonEngine.this_options Sample.engine)
                   Sample.override in
  let analyzer :=
    ImageComparator.clusterAnalyzer
      (VisualComparisonEngine.comparator Sample.engine) in
  Options.lineShiftThreshold configured = Some (ofZ 1)
  ∧ Options.lineShiftThreshold (ClusterAnalyzer.options analyzer)
    = Some (ofQ 0.8)
  ∧ ∃ log r analysis c,
      VisualComparisonEngine.compare Sample.engine Sample.black Sample.white
                                     Sample.override
      = (log, inr r)
      ∧ Details.analysis (Result.details r) = Some analysis
      ∧ analysis
        = ClusterAnalyzer.analyzeClusters
            analyzer (ImageData.data (Result.diffImageData r)) 1 1 configured
      ∧ ClusterAnalyzer.Analysis.clusters analysis = [c]
      ∧ ClusterAnalyzer.Cluster.pixels c = [(0, 0)]
      ∧ ClusterAnalyzer.Cluster.size c = 1
      ∧ ClusterAnalyzer.countLinelike
          (ImageData.data (Result.diffImageData r)) 1 1
          (ClusterAnalyzer.Cluster.pixels c)
        = 1
      ∧ ngt (ndiv (ofZ (ClusterAnalyzer.countLinelike
                          (ImageData.data (Result.diffImageData r)) 1 1
                          (ClusterAnalyzer.Cluster.pixels c)))
                  (ofZ (ClusterAnalyzer.Cluster.size c)))
            (getNum (Options.lineShiftThreshold configured))
        = false
      ∧ ClusterAnalyzer.Cluster.isLineShift c = true.
Proof.
  intros configured analyzer.
  split; [by vm_compute|]. split; [by vm_compute|].
  do 4 eexists. split; [by vm_compute|]. split; [by vm_compute|].
  split; [by vm_compute|]. split; [by vm_compute|].
  repeat split; by vm_compute.
Qed.

Lemma compare_verdict_witness :
  ∃ log r,
    ImageComparator.compare (VisualComparisonEngine.comparator Sample.engine)
                            Sample.black Sample.white Sample.override
    = (log, inr r)
    ∧ AnalyzeClusters ∈ log.
Proof.
  do 2 eexists. split; [by vm_compute|].
  edestruct (compare_verdict (VisualComparisonEngine.comparator Sample.engine)
                             Sample.black Sample.white Sample.override)
    as (_ & _ & Hpos); [by vm_compute|].
  destruct Hpos as (analysis & _ & _ & Hlog & _); [by vm_compute|].
  exact Hlog.
Defined.

Lemma demo_countsMarkers : countsMarkers.
Proof.
  intros img1 img2 output width height options diffCount diffBuffer.
  simpl. unfold Demo.demoMatch. destruct (negb _); [done|].
  by intros [= <- <-].
Qed.

Lemma significantDiffPixels_sum_witness :
  ∃ log r,
    ImageComparator.compare (VisualComparisonEngine.comparator Sample.strictEngine)
                            Sample.black Sample.white Sample.override
    = (log, inr r)
    ∧ Details.significantDiffPixels (Result.details r) ≤ Result.diffCount r.
Proof.
  do 2 eexists. split; [by vm_compute|].
  edestruct (significantDiffPixels_sum
               (VisualComparisonEngine.comparator Sample.strictEngine)
               Sample.black Sample.white Sample.override)
    as (_ & Hle & _);
    [exact demo_countsMarkers|by vm_compute|by vm_compute|].
  exact Hle.
Defined.

Lemma canonical_size_witness :
  ∃ processed,
    ImageProcessor.processImages Sample.black (ACanvas Sample.portrait) Sample.wide
    = inr processed
    ∧ ImageData.width (Processed.actualImageData processed) = 800
    ∧ ImageData.height (Processed.actualImageData processed) = 1600.
Proof.
  destruct (proj2 canonical_size Demo.libraries Sample.black _ [] _ Sample.wide
                  eq_refl eq_refl eq_refl)
    as (_ & processed & Hp & _ & _ & Hw & Hh & _).
  exists processed. split; [exact Hp|]. split; [exact Hw|exact Hh].
Defined.

Lemma clusters_partition_witness :
  ∃ i c,
    ClusterAnalyzer.Analysis.clusters
      (ClusterAnalyzer.analyzeClusters Sample.analyzer Sample.mask 4 1 Options.empty)
    !! i = Some c
    ∧ (2, 0) ∈ ClusterAnalyzer.Cluster.pixels c.
Proof.
  destruct (clusters_partition Sample.analyzer Sample.mask 4 1 Options.empty)
    as [Hcover _].
  destruct (Hcover (2, 0)) as (i & c & Hi & Hc & _);
    [reflexivity|reflexivity|].
  exists i, c. split; [exact Hi|exact Hc].
Defined.

Lemma isDiffPixel_marker_witness :
  ∃ c,
    ClusterAnalyzer.Analysis.clusters
      (ClusterAnalyzer.analyzeClusters Sample.analyzer Sample.mask 4 1 Options.empty)
    !! 0%nat = Some c
    ∧ (1, 0) ∉ ClusterAnalyzer.Cluster.pixels c.
Proof.
  eexists. split; [by vm_compute|].
  destruct (isDiffPixel_marker Sample.analyzer Sample.mask 4 1 Options.empty)
    as (_ & _ & _ & Hout).
  apply Hout; [reflexivity|].
  eapply (list_elem_of_lookup_2 _ 0). by vm_compute.
Defined.

Lemma lineShift_classification_witness :
  ∃ c,
    ClusterAnalyzer.Analysis.clusters
      (ClusterAnalyzer.analyzeClusters Sample.analyzer Sample.mask 4 1 Options.empty)
    !! 1%nat = Some c
    ∧ 0 < ClusterAnalyzer.Cluster.size c
    ∧ ClusterAnalyzer.Cluster.isLineShift c = false.
Proof.
  eexists. split; [by vm_compute|].
  destruct (lineShift_classification Sample.analyzer Sample.mask 4 1 Options.empty)
    as (_ & _ & _ & _ & Hcl & _).
  edestruct Hcl as [Hpos Hls].
  { eapply (list_elem_of_lookup_2 _ 1). by vm_compute. }
  split; [exact Hpos|]. rewrite Hls. by vm_compute.
Defined.

Lemma minClusterSize_monotone_witness :
  ClusterAnalyzer.Analysis.significantClusters
    (ClusterAnalyzer.analyzeClusters Sample.analyzer Sample.mask 4 1 (Sample.atLeast 2))
  ≤ ClusterAnalyzer.Analysis.significantClusters
      (ClusterAnalyzer.analyzeClusters Sample.analyzer Sample.mask 4 1 (Sample.atLeast 1))
  ∧ ClusterAnalyzer.Analysis.significantPixels
      (ClusterAnalyzer.analyzeClusters Sample.analyzer Sample.mask 4 1 (Sample.atLeast 2))
    ≤ ClusterAnalyzer.Analysis.significantPixels
        (ClusterAnalyzer.analyzeClusters Sample.analyzer Sample.mask 4 1
                                         (Sample.atLeast 1)).
Proof.
  apply (minClusterSize_monotone Sample.analyzer Sample.mask 4 1
                                 (Sample.atLeast 1) (Sample.atLeast 2)).
  reflexivity.
Defined.

Lemma batchCompare_entries_witness :
  length (VisualComparisonEngine.batchCompare Sample.engine Sample.pairs
                                              Sample.override).2
  = 3%nat
  ∧ (VisualComparisonEngine.batchCompare Sample.engine Sample.pairs Sample.override).2
    !! 1%nat
    = Some (Failed "second" false "Unsupported image input type").
Proof.
  destruct (batchCompare_entries Sample.engine Sample.pairs Sample.override)
    as [Hlen Hentry].
  split; [exact Hlen|].
  specialize (Hentry 1%nat Sample.second eq_refl).
  assert (Hc : (ImageComparator.compare
                  (VisualComparisonEngine.comparator Sample.engine)
                  (Pair.actual Sample.second) (Pair.expected Sample.second)
                  (Options.spread
                     (VisualComparisonEngine.this_options Sample.engine)
                     Sample.override)).2
               = inl (Error "Unsupported image input type"))
    by by vm_compute.
  rewrite Hc in Hentry. exact Hentry.
Defined.

(** * Further properties of the code *)

(** ** Bounding boxes *)

Section Bounds.
Import ClusterAnalyzer.

Lemma bounds_fold (l : list Pixel) (a b c d a' b' c' d' : Z) :
  fold_left (λ '(minX, maxX, minY, maxY) p,
               (Z.min minX p.1, Z.max maxX p.1,
                Z.min minY p.2, Z.max maxY p.2))
            l (a, b, c, d) = (a', b', c', d') →
  (a' ≤ a ∧ b ≤ b' ∧ c' ≤ c ∧ d ≤ d')
  ∧ (∀ p, p ∈ l → a' ≤ p.1 ≤ b' ∧ c' ≤ p.2 ≤ d')
  ∧ (a' = a ∨ ∃ p, p ∈ l ∧ p.1 = a')
  ∧ (b' = b ∨ ∃ p, p ∈ l ∧ p.1 = b')
  ∧ (c' = c ∨ ∃ p, p ∈ l ∧ p.2 = c')
  ∧ (d' = d ∨ ∃ p, p ∈ l ∧ p.2 = d').
Proof.
  revert a b c d. induction l as [|q l IH]; intros a b c d Hf; simpl in Hf.
  { injection Hf as <- <- <- <-. split_and!; try lia; try by left.
    intros p Hp. by apply elem_of_nil in Hp. }
  apply IH in Hf as (Hmono & Hin & Ha & Hb & Hc & Hd).
  assert (Hpick : ∀ (f : Pixel → Z) (v w : Z),
            (v = Z.min w (f q) ∨ v = Z.max w (f q)) ∨ (∃ p, p ∈ l ∧ f p = v) →
            v = w ∨ ∃ p, p ∈ q :: l ∧ f p = v).
  { intros f v w [[Hv|Hv]|(p & Hp & Hv)].
    - destruct (Z.min_spec w (f q)) as [[_ E]|[_ E]].
      + left. lia.
      + right. exists q. split; [by left|lia].
    - destruct (Z.max_spec w (f q)) as [[_ E]|[_ E]].
      + right. exists q. split; [by left|lia].
      + left. lia.
    - right. exists p. split; [by right|done]. }
  split_and!; try lia.
  - intros p [->|Hp]%elem_of_cons; [lia|by apply Hin].
  - apply (Hpick fst). destruct Ha as [->|?]; [left; by left|by right].
  - apply (Hpick fst). destruct Hb as [->|?]; [left; by right|by right].
  - apply (Hpick snd). destruct Hc as [->|?]; [left; by left|by right].
  - apply (Hpick snd). destruct Hd as [->|?]; [left; by right|by right].
Qed.

(** The bounds of a list with a first pixel. *)
Lemma calculateBounds_cons (p0 : Pixel) (rest : list Pixel) :
  let pixels := p0 :: rest in
  let b := _calculateBounds pixels in
  (∀ p, p ∈ pixels →
        Bounds.minX b ≤ p.1 ≤ Bounds.maxX b
        ∧ Bounds.minY b ≤ p.2 ≤ Bounds.maxY b)
  ∧ (∃ p, p ∈ pixels ∧ p.1 = Bounds.minX b)
  ∧ (∃ p, p ∈ pixels ∧ p.1 = Bounds.maxX b)
  ∧ (∃ p, p ∈ pixels ∧ p.2 = Bounds.minY b)
  ∧ (∃ p, p ∈ pixels ∧ p.2 = Bounds.maxY b)
  ∧ Bounds.width b = Some (Bounds.maxX b - Bounds.minX b + 1)
  ∧ Bounds.height b = Some (Bounds.maxY b - Bounds.minY b + 1).
Proof.
  intros pixels b. subst b pixels. cbv beta iota delta [_calculateBounds].
  destruct (fold_left _ _ _) as [[[a' b'] c'] d'] eqn:Hf.
  apply bounds_fold in Hf as (_ & Hin & Ha & Hb & Hc & Hd). simpl.
  assert (Hp0 : p0 ∈ p0 :: rest) by by left.
  split_and!; try done.
  - destruct Ha as [->|?]; [by exists p0|done].
  - destruct Hb as [->|?]; [by exists p0|done].
  - destruct Hc as [->|?]; [by exists p0|done].
  - destruct Hd as [->|?]; [by exists p0|done].
Qed.

Lemma bounds_eq (b b' : Bounds.t) :
  Bounds.minX b = Bounds.minX b' → Bounds.maxX b = Bounds.maxX b' →
  Bounds.minY b = Bounds.minY b' → Bounds.maxY b = Bounds.maxY b' →
  Bounds.width b = Bounds.width b' → Bounds.height b = Bounds.height b' →
  b = b'.
Proof. destruct b, b'. simpl. congruence. Qed.

(** X1: the bounds are the least box around the pixels.  For a non-empty
    list every pixel lies between the minima and the maxima, any other
    range that holds all the pixels holds the bounds too, and [width] and
    [height] are the extents plus one; for the empty list the four bounds
    are 0 and there is no [width] or [height]; and the bounds do not depend
    on the order of the list. *)
Theorem calculateBounds_tight (pixels : list Pixel) :
  let b := _calculateBounds pixels in
  (pixels = [] →
   b = {| Bounds.minX := 0; Bounds.minY := 0; Bounds.maxX := 0;
          Bounds.maxY := 0; Bounds.width := None; Bounds.height := None |})
  ∧ (pixels ≠ [] →
     (∀ p, p ∈ pixels →
           Bounds.minX b ≤ p.1 ≤ Bounds.maxX b
           ∧ Bounds.minY b ≤ p.2 ≤ Bounds.maxY b)
     ∧ (∀ x0 x1 y0 y1,
          (∀ p, p ∈ pixels → x0 ≤ p.1 ≤ x1 ∧ y0 ≤ p.2 ≤ y1) →
          x0 ≤ Bounds.minX b ∧ Bounds.maxX b ≤ x1
          ∧ y0 ≤ Bounds.minY b ∧ Bounds.maxY b ≤ y1)
     ∧ Bounds.width b = Some (Bounds.maxX b - Bounds.minX b + 1)
     ∧ Bounds.height b = Some (Bounds.maxY b - Bounds.minY b + 1))
  ∧ (∀ pixels', pixels ≡ₚ pixels' → _calculateBounds pixels' = b).
Proof.
  intros b. subst b. split_and!.
  - by intros ->.
  - intros Hne. destruct pixels as [|p0 rest]; [done|].
    destruct (calculateBounds_cons p0 rest)
      as (Henc & (pa & Hpa & Ha) & (pb & Hpb & Hb) & (pc & Hpc & Hc)
          & (pd & Hpd & Hd) & Hw & Hh).
    split_and!; [done| |done|done].
    intros x0 x1 y0 y1 Hall.
    pose proof (Hall pa Hpa). pose proof (Hall pb Hpb).
    pose proof (Hall pc Hpc). pose proof (Hall pd Hpd). lia.
  - intros pixels' Hperm.
    destruct pixels as [|p0 rest].
    { by apply Permutation_nil_l in Hperm as ->. }
    destruct pixels' as [|q0 rest'].
    { by apply Permutation_nil_r in Hperm. }
    destruct (calculateBounds_cons p0 rest)
      as (Henc & (pa & Hpa & Ha) & (pb & Hpb & Hb) & (pc & Hpc & Hc)
          & (pd & Hpd & Hd) & Hw & Hh).
    destruct (calculateBounds_cons q0 rest')
      as (Henc' & (qa & Hqa & Ha') & (qb & Hqb & Hb') & (qc & Hqc & Hc')
          & (qd & Hqd & Hd') & Hw' & Hh').
    assert (Hto : ∀ p, p ∈ p0 :: rest → p ∈ q0 :: rest').
    { intros p Hp. by rewrite <- Hperm. }
    assert (Hfrom : ∀ p, p ∈ q0 :: rest' → p ∈ p0 :: rest).
    { intros p Hp. by rewrite Hperm. }
    pose proof (Henc' pa (Hto pa Hpa)). pose proof (Henc' pb (Hto pb Hpb)).
    pose proof (Henc' pc (Hto pc Hpc)). pose proof (Henc' pd (Hto pd Hpd)).
    pose proof (Henc qa (Hfrom qa Hqa)). pose proof (Henc qb (Hfrom qb Hqb)).
    pose proof (Henc qc (Hfrom qc Hqc)). pose proof (Henc qd (Hfrom qd Hqd)).
    apply bounds_eq; try lia.
    + rewrite Hw, Hw'. f_equal. lia.
    + rewrite Hh, Hh'. f_equal. lia.
Qed.

Lemma elem_of_box (b : Bounds.t) (p : Pixel) :
  p ∈ box b
  ↔ Bounds.minX b ≤ p.1 ≤ Bounds.maxX b ∧ Bounds.minY b ≤ p.2 ≤ Bounds.maxY b.
Proof.
  unfold box. destruct p as [x y]. simpl.
  rewrite list_elem_of_bind. setoid_rewrite list_elem_of_bind.
  setoid_rewrite list_elem_of_singleton. setoid_rewrite elem_of_seqZ. split.
  - intros (y' & (x' & [= -> ->] & Hx) & Hy). lia.
  - intros Hxy. exists y. split; [|lia]. exists x. split; [done|lia].
Qed.

Lemma length_bind_const {A B : Type} (f : A → list B) (n : nat) (l : list A) :
  (∀ a, length (f a) = n) → length (l ≫= f) = (length l * n)%nat.
Proof.
  intros Hf. induction l as [|a l IH]; [done|].
  csimpl. rewrite length_app, IH, Hf. lia.
Qed.

Lemma length_box (b : Bounds.t) :
  Bounds.minX b ≤ Bounds.maxX b → Bounds.minY b ≤ Bounds.maxY b →
  len (box b)
  = (Bounds.maxX b - Bounds.minX b + 1) * (Bounds.maxY b - Bounds.minY b + 1).
Proof.
  intros Hx Hy. unfold box, len.
  rewrite (length_bind_const _ (Z.to_nat (Bounds.maxX b - Bounds.minX b + 1))).
  - rewrite length_seqZ. lia.
  - intros y. rewrite (length_bind_const _ 1%nat); [|done].
    rewrite length_seqZ. lia.
Qed.

Lemma NoDup_bind_elem {A B : Type} (f : A → list B) (l : list A) (a : A) :
  NoDup (l ≫= f) → a ∈ l → NoDup (f a).
Proof.
  induction l as [|c l IH]; intros Hnd Ha; [by apply elem_of_nil in Ha|].
  csimpl in Hnd. apply NoDup_app in Hnd as (Hc & _ & Hl).
  apply elem_of_cons in Ha as [->|Ha]; [done|by apply IH].
Qed.

End Bounds.

Section ClusterBounds.
Import ClusterAnalyzer.
Context `{JSNumber}.

(** X2: the bounds of the clusters the analyzer returns.  The box of a
    cluster lies inside the image, contains every pixel of the cluster, and
    its area is at least the cluster's size. *)
Theorem cluster_bounds (this : ClusterAnalyzer.t) (buffer : Buffer)
    (width height : Z) (options : Options.t) (c : Cluster.t) :
  c ∈ Analysis.clusters (analyzeClusters this buffer width height options) →
  let b := Cluster.bounds c in
  0 ≤ Bounds.minX b ≤ Bounds.maxX b ∧ Bounds.maxX b < width
  ∧ 0 ≤ Bounds.minY b ≤ Bounds.maxY b ∧ Bounds.maxY b < height
  ∧ (∀ p, p ∈ Cluster.pixels c → p ∈ box b)
  ∧ Cluster.size c
    ≤ (Bounds.maxX b - Bounds.minX b + 1) * (Bounds.maxY b - Bounds.minY b + 1)
  ∧ Bounds.width b = Some (Bounds.maxX b - Bounds.minX b + 1)
  ∧ Bounds.height b = Some (Bounds.maxY b - Bounds.minY b + 1).
Proof.
  intros Hc b.
  destruct (analyzeClusters_scanned this buffer width height options)
    as [[Hnd _ Hdiff _] Hb].
  rewrite Forall_forall in Hb. destruct (Hb c Hc) as (Hsz & Hne & _ & Hbd).
  assert (Hin : ∀ p, p ∈ Cluster.pixels c → inBounds width height p = true).
  { intros p Hp. apply Hdiff. apply list_elem_of_bind. eauto. }
  subst b. rewrite Hbd.
  destruct (Cluster.pixels c) as [|p0 rest] eqn:Hpx; [done|].
  pose proof (calculateBounds_cons p0 rest)
    as (Henc & (pa & Hpa & Ha) & (pb & Hpb & Hb') & (pc & Hpc & Hc')
        & (pd & Hpd & Hd') & Hw & Hh).
  set (b := _calculateBounds (p0 :: rest)) in *.
  assert (Hbox : ∀ p, p ∈ p0 :: rest → p ∈ box b).
  { intros p Hp. apply elem_of_box. by apply Henc. }
  assert (Hcoord : ∀ p, p ∈ p0 :: rest →
            0 ≤ p.1 < width ∧ 0 ≤ p.2 < height).
  { intros p Hp. specialize (Hin p Hp). unfold inBounds in Hin.
    rewrite !andb_true_iff, !Z.leb_le, !Z.ltb_lt in Hin. lia. }
  pose proof (Hcoord pa Hpa). pose proof (Hcoord pb Hpb).
  pose proof (Hcoord pc Hpc). pose proof (Hcoord pd Hpd).
  pose proof (Henc pa Hpa). pose proof (Henc pc Hpc).
  split_and!; try lia; try done.
  rewrite Hsz, <- length_box by lia. unfold len.
  apply inj_le, submseteq_length, NoDup_submseteq; [|done].
  rewrite <- Hpx. eapply (NoDup_bind_elem Cluster.pixels); [exact Hnd|done].
Qed.

End ClusterBounds.

(** ** What the flood fill does to its state *)

Section FloodFillEffect.
Import ClusterAnalyzer.
Variables (buffer : Buffer) (width height : Z).

Lemma adjacent8_sym (p q : Pixel) : adjacent8 p q → adjacent8 q p.
Proof. unfold adjacent8. intros (Hne & Hx & Hy). split; [congruence|lia]. Qed.

Lemma linked_mono (S S' : list Pixel) (a b : Pixel) :
  (∀ p, p ∈ S → p ∈ S') → linked S a b → linked S' a b.
Proof.
  intros Hsub. apply rtc_subrel. intros x y (Hadj & Hx & Hy). auto.
Qed.

Lemma linked_sym (S : list Pixel) (a b : Pixel) : linked S a b → linked S b a.
Proof.
  induction 1 as [|x y z (Hadj & Hx & Hy) _ IH]; [apply rtc_refl|].
  eapply rtc_r; [exact IH|]. split; [by apply adjacent8_sym|done].
Qed.

Lemma slots_snoc (pixels : list Pixel) (p : Pixel) :
  slots width (pixels ++ [p]) = slots width pixels ∪ {[slot width p]}.
Proof.
  unfold slots. rewrite fmap_app, list_to_set_app_L. simpl. set_solver.
Qed.

Lemma elem_of_pushes (visited : gset Z) (p n : Pixel) :
  n ∈ pushes width height visited p
  ↔ adjacent8 p n ∧ inBounds width height n = true ∧ slot width n ∉ visited.
Proof.
  unfold pushes. rewrite list_elem_of_filter, elem_of_neighbours8. tauto.
Qed.

(** The loop on any visited set [V0 ∪ slots clusterPixels]. *)
Lemma floodFill_effect (V0 : gset Z) (queue : list Pixel) (visited : gset Z)
    (clusterPixels : list Pixel) (size : Z)
    (visited' : gset Z) (pixels' : list Pixel) (size' : Z) :
  floodFill buffer width height queue visited clusterPixels size
  = (visited', pixels', size') →
  (∀ p, p ∈ queue → inBounds width height p = true) →
  visited = V0 ∪ slots width clusterPixels →
  NoDup clusterPixels →
  (∀ p, p ∈ clusterPixels →
        inBounds width height p = true
        ∧ _isDiffPixel buffer (slot width p) = true
        ∧ slot width p ∉ V0) →
  visited' = V0 ∪ slots width pixels'
  ∧ NoDup pixels'
  ∧ size' - size = len pixels' - len clusterPixels
  ∧ (∀ p, p ∈ pixels' →
          inBounds width height p = true
          ∧ _isDiffPixel buffer (slot width p) = true
          ∧ slot width p ∉ V0).
Proof.
  revert visited' pixels' size'.
  funelim (floodFill buffer width height queue visited clusterPixels size);
    intros visited' pixels' size' Hres Hq Hv Hnd Hpx.
  - injection Hres as <- <- <-. split_and!; [done|done|lia|done].
  - apply (H V0 _ _ _ Hres); try done. intros q Hq'. apply Hq. by right.
  - match goal with E : skips _ _ _ = false |- _ => pose proof E as Hs end.
    apply orb_false_iff in Hs as [Hnv Hd].
    apply bool_decide_eq_false in Hnv. apply negb_false_iff in Hd.
    assert (Hin : inBounds width height p = true) by (apply Hq; by left).
    destruct (H V0 _ _ _ Hres) as (Hv' & Hnd' & Hsz & Hpx').
    + intros q [Hq'|Hq']%elem_of_app; [apply Hq; by right|].
      by apply elem_of_pushes in Hq' as (_ & ? & _).
    + rewrite slots_snoc, Hv. clear. set_solver.
    + apply NoDup_app. split_and!; [done| |apply NoDup_singleton].
      intros q Hq' ->%list_elem_of_singleton. apply Hnv. rewrite Hv.
      apply elem_of_union_r. unfold slots. apply elem_of_list_to_set.
      by apply list_elem_of_fmap_2.
    + intros q [Hq' | ->%list_elem_of_singleton]%elem_of_app; [by apply Hpx|].
      split_and!; [done|done|]. rewrite Hv in Hnv. clear -Hnv. set_solver.
    + split_and!; [done|done| |done].
      unfold len in *. rewrite length_app in Hsz. simpl in Hsz. lia.
Qed.

(** The loop inside the scan: with the earlier clusters closed, the pixels
    collected end up closed, and linked to the seed. *)
Lemma floodFill_component (prev : list Pixel) (seed : Pixel)
    (queue : list Pixel) (visited : gset Z)
    (clusterPixels : list Pixel) (size : Z)
    (visited' : gset Z) (pixels' : list Pixel) (size' : Z) :
  floodFill buffer width height queue visited clusterPixels size
  = (visited', pixels', size') →
  (∀ p, p ∈ queue → inBounds width height p = true) →
  Marked buffer width height visited (prev ++ clusterPixels) →
  closedIn buffer width height prev →
  (∀ p n, p ∈ clusterPixels → adjacent8 p n →
          inBounds width height n = true →
          _isDiffPixel buffer (slot width n) = true →
          n ∈ clusterPixels ∨ n ∈ queue) →
  (∀ p, p ∈ clusterPixels → linked clusterPixels seed p) →
  (∀ n, n ∈ queue → n = seed ∨ ∃ p, p ∈ clusterPixels ∧ adjacent8 p n) →
  closedIn buffer width height pixels'
  ∧ (∀ p, p ∈ pixels' → linked pixels' seed p).
Proof.
  revert visited' pixels' size'.
  funelim (floodFill buffer width height queue visited clusterPixels size);
    intros visited' pixels' size' Hres Hq HM Hprev Hnext Hlink Hfrom.
  - injection Hres as <- <- <-. split; [|done].
    intros q n Hq' Hadj Hin Hd.
    destruct (Hnext q n Hq' Hadj Hin Hd) as [?|Hn]; [done|].
    by apply elem_of_nil in Hn.
  - apply (H prev seed _ _ _ Hres); try done.
    + intros q Hq'. apply Hq. by right.
    + intros q n Hq' Hadj Hin Hd.
      destruct (Hnext q n Hq' Hadj Hin Hd) as [?|[->|?]%elem_of_cons];
        [by left| |by right].
      left.
      match goal with E : skips _ _ _ = true |- _ => pose proof E as Hs end.
      apply orb_true_iff in Hs as [Hv|Hnd].
      2: { apply negb_true_iff in Hnd. congruence. }
      apply bool_decide_eq_true in Hv.
      destruct HM as [Hnodup _ Hdiff Hfound].
      destruct (Hfound _ Hv) as (q' & Hq'' & Hsl).
      assert (q' = p) as ->.
      { apply (slot_inj width height); [by apply Hdiff|done|done]. }
      apply elem_of_app in Hq'' as [Hp|Hp]; [|done]. exfalso.
      assert (Hqd : inBounds width height q = true
                    ∧ _isDiffPixel buffer (slot width q) = true).
      { apply Hdiff. apply elem_of_app. by right. }
      assert (Hqp : q ∈ prev).
      { apply (Hprev p q Hp); [by apply adjacent8_sym|tauto|tauto]. }
      apply NoDup_app in Hnodup as (_ & Hdisj & _). by apply (Hdisj q).
    + intros n Hn. apply Hfrom. by right.
  - match goal with E : skips _ _ _ = false |- _ =>
      pose proof E as Hs; pose proof E as Hs' end.
    apply orb_false_iff in Hs' as [Hnv Hd].
    apply bool_decide_eq_false in Hnv. apply negb_false_iff in Hd.
    assert (Hin : inBounds width height p = true) by (apply Hq; by left).
    assert (HM' : Marked buffer width height ({[slot width p]} ∪ visited)
                         (prev ++ clusterPixels ++ [p])).
    { rewrite app_assoc. by apply Marked_visit. }
    apply (H prev seed _ _ _ Hres); try done.
    + intros q [Hq'|Hq']%elem_of_app; [apply Hq; by right|].
      by apply elem_of_pushes in Hq' as (_ & ? & _).
    + intros q n [Hq' | ->%list_elem_of_singleton]%elem_of_app Hadj Hnin Hnd.
      * destruct (Hnext q n Hq' Hadj Hnin Hnd) as [?|[->|?]%elem_of_cons].
        -- left. apply elem_of_app. by left.
        -- left. apply elem_of_app. right. by apply list_elem_of_singleton.
        -- right. apply elem_of_app. by left.
      * destruct (decide (slot width n ∈ ({[slot width p]} ∪ visited)))
          as [Hvis|Hvis].
        2: { right. apply elem_of_app. right. by apply elem_of_pushes. }
        left. apply elem_of_union in Hvis as [Hvis|Hvis].
        { apply elem_of_singleton in Hvis.
          apply (slot_inj width height) in Hvis as ->; [|done..].
          apply elem_of_app. right. by apply list_elem_of_singleton. }
        destruct HM as [_ Hmv Hdiff Hfound].
        destruct (Hfound _ Hvis) as (n' & Hn' & Hsl).
        assert (n' = n) as ->.
        { apply (slot_inj width height); [by apply Hdiff|done|done]. }
        apply elem_of_app in Hn' as [Hn'|Hn'];
          [|apply elem_of_app; by left].
        exfalso. apply Hnv. apply Hmv. apply elem_of_app. left.
        apply (Hprev n p Hn'); [by apply adjacent8_sym|done|done].
    + intros q [Hq' | ->%list_elem_of_singleton]%elem_of_app.
      * eapply linked_mono; [|by apply Hlink].
        intros r Hr. apply elem_of_app. by left.
      * destruct (Hfrom p) as [->|(r & Hr & Hadj)]; [by left|apply rtc_refl|].
        eapply rtc_r.
        -- eapply linked_mono; [|by apply Hlink].
           intros r' Hr'. apply elem_of_app. by left.
        -- split; [done|]. split; apply elem_of_app; [by left|].
           right. by apply list_elem_of_singleton.
    + intros n [Hn|Hn]%elem_of_app.
      * destruct (Hfrom n) as [->|(r & Hr & Hadj)]; [by right|by left|].
        right. exists r. split; [apply elem_of_app; by left|done].
      * apply elem_of_pushes in Hn as (Hadj & _). right. exists p.
        split; [|done]. apply elem_of_app. right.
        by apply list_elem_of_singleton.
Qed.

End FloodFillEffect.

(** ** Clusters as connected components *)

Section ClusterComponents.
Import ClusterAnalyzer.
Context `{JSNumber}.
Variables (this : ClusterAnalyzer.t) (buffer : Buffer) (width height : Z).

(** A flood fill from an unvisited differing position inside the image. *)
Lemma findCluster_fresh (startX startY : Z) (visited : gset Z) :
  let r := _findCluster this buffer startX startY width height visited in
  skips buffer visited (slot width (startX, startY)) = false →
  inBounds width height (startX, startY) = true →
  head (Cluster.pixels r.2) = Some (startX, startY)
  ∧ r.1 = visited ∪ slots width (Cluster.pixels r.2)
  ∧ NoDup (Cluster.pixels r.2)
  ∧ Cluster.size r.2 = len (Cluster.pixels r.2)
  ∧ ∀ p, p ∈ Cluster.pixels r.2 →
         inBounds width height p = true
         ∧ _isDiffPixel buffer (slot width p) = true
         ∧ slot width p ∉ visited.
Proof.
  intros r Hs Hin. subst r. unfold _findCluster. pose proof Hs as Hs'.
  apply orb_false_iff in Hs' as [Hnv Hd].
  apply bool_decide_eq_false in Hnv. apply negb_false_iff in Hd.
  rewrite (floodFill_visit _ _ _ _ _ _ _ _ Hs). simpl.
  destruct (floodFill buffer width height _ _ _ _)
    as [[visited' pixels'] size'] eqn:Hff.
  pose proof Hff as Hff'.
  apply floodFill_spec in Hff' as (more & -> & _ & _ & _).
  2: { intros q Hq. by apply elem_of_pushes in Hq as (_ & ? & _). }
  apply (floodFill_effect _ _ _ visited) in Hff
    as (Hv & Hnd & Hsz & Hpx).
  + cbn [fst snd Cluster.pixels Cluster.size]. unfold len in *.
    simpl length in *. split_and!; [done..|lia|done].
  + intros q Hq. by apply elem_of_pushes in Hq as (_ & ? & _).
  + unfold slots. simpl. set_solver.
  + apply NoDup_singleton.
  + intros q ->%list_elem_of_singleton. done.
Qed.

(** X3: what [_findCluster] does on any visited set.  Started on a position
    that is already visited or does not differ, it returns the empty
    cluster and leaves the set as it was.  Started on an unvisited
    differing position inside the image, it returns a cluster that begins
    with that position, lists each of its pixels once, all of them
    differing, in bounds and unvisited before, counts them in [size], and
    adds exactly their slots to the visited set; so the visited set never
    shrinks, and a second call on the same position finds nothing. *)
Theorem findCluster_effect (startX startY : Z) (visited : gset Z) :
  let r := _findCluster this buffer startX startY width height visited in
  (skips buffer visited (slot width (startX, startY)) = true →
   r = (visited, emptyCluster))
  ∧ (skips buffer visited (slot width (startX, startY)) = false →
     inBounds width height (startX, startY) = true →
     head (Cluster.pixels r.2) = Some (startX, startY)
     ∧ r.1 = visited ∪ slots width (Cluster.pixels r.2)
     ∧ NoDup (Cluster.pixels r.2)
     ∧ Cluster.size r.2 = len (Cluster.pixels r.2)
     ∧ ∀ p, p ∈ Cluster.pixels r.2 →
            inBounds width height p = true
            ∧ _isDiffPixel buffer (slot width p) = true
            ∧ slot width p ∉ visited)
  ∧ (inBounds width height (startX, startY) = true →
     visited ⊆ r.1
     ∧ _findCluster this buffer startX startY width height r.1
       = (r.1, emptyCluster)).
Proof.
  intros r.
  assert (Hskip : ∀ V, skips buffer V (slot width (startX, startY)) = true →
            _findCluster this buffer startX startY width height V
            = (V, emptyCluster)).
  { intros V Hs. unfold _findCluster. simp floodFill.
    destruct (sumbool_of_bool _) as [E|E]; [|congruence].
    simpl. by simp floodFill. }
  pose proof (findCluster_fresh startX startY visited) as Hfresh.
  fold r in Hfresh. simpl in Hfresh.
  destruct (skips buffer visited (slot width (startX, startY))) eqn:Hs.
  - pose proof (Hskip visited Hs) as Hr. fold r in Hr.
    split_and!; [done|done|].
    intros _. rewrite Hr. simpl. split; [done|]. by apply Hskip.
  - split_and!; [done|done|].
    intros Hin. destruct (Hfresh eq_refl Hin) as (Hhead & Hv & _).
    split; [rewrite Hv; set_solver|].
    apply Hskip. unfold skips. apply orb_true_iff. left.
    apply bool_decide_eq_true. rewrite Hv.
    destruct (Cluster.pixels r.2) as [|s rest]; [done|].
    injection Hhead as ->. unfold slots. set_solver.
Qed.

Lemma scanned_start : scanned this buffer width height (∅, []).
Proof.
  split; simpl; [|done]. split; simpl.
  - apply NoDup_nil_2.
  - intros p Hp. by apply elem_of_nil in Hp.
  - intros p Hp. by apply elem_of_nil in Hp.
  - intros k Hk. by apply not_elem_of_empty in Hk.
Qed.

(** Whatever every scan step keeps, the scan ends with. *)
Lemma scan_invariant (P : gset Z * list Cluster.t → Prop) :
  P (∅, []) →
  (∀ st p, inBounds width height p = true →
           scanned this buffer width height st → P st →
           P (scanPixel this buffer width height st p)) →
  P (scan this buffer width height).
Proof.
  intros H0 Hstep. rewrite scan_coords.
  assert (Hl : ∀ p, p ∈ coords width height → inBounds width height p = true).
  { intros p. apply elem_of_coords. }
  pose proof scanned_start as Hsc. revert Hl H0 Hsc.
  generalize (∅ : gset Z, [] : list Cluster.t) as st.
  induction (coords width height) as [|q l IH]; intros st Hl H0 Hsc; [done|].
  simpl. apply IH.
  - intros p Hp. apply Hl. by right.
  - apply Hstep; [apply Hl; by left|done|done].
  - apply scanPixel_spec; [apply Hl; by left|done].
Qed.

Lemma closedIn_allPixels (clusters : list Cluster.t) :
  Forall (component buffer width height) clusters →
  closedIn buffer width height (allPixels clusters).
Proof.
  intros Hall p n Hp Hadj Hin Hd. unfold allPixels in *.
  apply list_elem_of_bind in Hp as (c & Hp & Hc).
  apply list_elem_of_bind. exists c. split; [|done].
  rewrite Forall_forall in Hall. destruct (Hall c Hc) as [Hcl _].
  by apply (Hcl p n).
Qed.

Lemma scan_components :
  Forall (component buffer width height) (scan this buffer width height).2.
Proof.
  apply (scan_invariant (λ st, Forall (component buffer width height) st.2));
    [done|].
  intros [visited clusters] p Hin [HM _] Hall. simpl in HM, Hall.
  unfold scanPixel.
  destruct (_isDiffPixel buffer (slot width p)) eqn:Hd; simpl; [|done].
  destruct (bool_decide (slot width p ∈ visited)) eqn:Hv; simpl; [done|].
  assert (Hs : skips buffer visited (slot width p) = false).
  { unfold skips. by rewrite Hv, Hd. }
  unfold _findCluster. rewrite <- (surjective_pairing p).
  destruct (floodFill buffer width height _ _ _ _)
    as [[visited' pixels'] size'] eqn:Hff.
  simpl. apply Forall_app. split; [done|]. apply Forall_singleton.
  apply (floodFill_component _ _ _ (allPixels clusters) p) in Hff
    as [Hcl Hlk].
  - split; simpl; [done|]. intros a b Ha Hb.
    eapply rtc_trans; [apply linked_sym|]; by apply Hlk.
  - intros q ->%list_elem_of_singleton. done.
  - by rewrite app_nil_r.
  - by apply closedIn_allPixels.
  - intros q n Hq. by apply elem_of_nil in Hq.
  - intros q Hq. by apply elem_of_nil in Hq.
  - intros n ->%list_elem_of_singleton. by left.
Qed.

(** X4: a cluster is 8-connected.  Any two pixels of a cluster the analyzer
    returns are joined by a chain of 8-adjacent steps that stays inside the
    cluster. *)
Theorem cluster_connected (options : Options.t) (c : Cluster.t) (p q : Pixel) :
  c ∈ Analysis.clusters (analyzeClusters this buffer width height options) →
  p ∈ Cluster.pixels c → q ∈ Cluster.pixels c →
  linked (Cluster.pixels c) p q.
Proof.
  intros Hc Hp Hq. pose proof scan_components as Hall.
  rewrite Forall_forall in Hall. destruct (Hall c Hc) as [_ Hlk]. by apply Hlk.
Qed.

(** X5: a cluster is a whole component.  Every differing in-bounds
    neighbour of a pixel of a cluster is in that cluster, so pixels of two
    different clusters are never 8-adjacent. *)
Theorem cluster_maximal (options : Options.t) :
  let clusters :=
    Analysis.clusters (analyzeClusters this buffer width height options) in
  (∀ c, c ∈ clusters → closedIn buffer width height (Cluster.pixels c))
  ∧ (∀ i j ci cj p q,
       clusters !! i = Some ci → clusters !! j = Some cj →
       p ∈ Cluster.pixels ci → q ∈ Cluster.pixels cj →
       adjacent8 p q → i = j).
Proof.
  intros clusters. pose proof scan_components as Hall.
  rewrite Forall_forall in Hall.
  destruct (analyzeClusters_scanned this buffer width height options)
    as [[Hnd _ Hdiff _] _].
  fold clusters in Hnd, Hdiff. split.
  - intros c Hc. by destruct (Hall c Hc).
  - intros i j ci cj p q Hi Hj Hp Hq Hadj.
    assert (Hci : ci ∈ clusters) by by eapply list_elem_of_lookup_2.
    assert (Hcj : cj ∈ clusters) by by eapply list_elem_of_lookup_2.
    destruct (Hall ci Hci) as [Hcl _].
    destruct (Hdiff q) as [Hqin Hqd].
    { apply list_elem_of_bind. eauto. }
    by eapply (NoDup_bind_lookup Cluster.pixels clusters i j ci cj q);
      [..|apply (Hcl p q)|].
Qed.

Lemma length_bind_nonempty {A B : Type} (f : A → list B) (l : list A) :
  Forall (λ a, f a ≠ []) l → (length l ≤ length (l ≫= f))%nat.
Proof.
  induction 1 as [|a l Ha _ IH]; [done|]. csimpl. rewrite length_app.
  destruct (f a); [done|]. simpl. lia.
Qed.

(** X6: the counts of an analysis.  [totalClusters] is the number of
    clusters and at most the number of differing pixels of the mask; the
    cluster sizes add up to that number; the significant clusters are at
    most all clusters and the significant pixels at most all differing
    pixels, neither negative. *)
Theorem analysis_counts (options : Options.t) :
  let a := analyzeClusters this buffer width height options in
  let differing := len (diffPixels buffer width height) in
  Analysis.totalClusters a = len (Analysis.clusters a)
  ∧ Analysis.totalClusters a ≤ differing
  ∧ sumSizes (Analysis.clusters a) = differing
  ∧ 0 ≤ Analysis.significantClusters a ≤ Analysis.totalClusters a
  ∧ 0 ≤ Analysis.significantPixels a ≤ differing.
Proof.
  intros a differing.
  destruct (analyzeClusters_scanned this buffer width height options)
    as [_ Hb]. fold a in Hb.
  pose proof (clusters_diffPixels this buffer width height options) as Hperm.
  fold a in Hperm. apply Permutation_length in Hperm. unfold allPixels in Hperm.
  assert (Hsz : Forall (λ c, Cluster.size c = len (Cluster.pixels c))
                       (Analysis.clusters a)).
  { eapply Forall_impl; [exact Hb|]. by intros c [? _]. }
  assert (Hsum : sumSizes (Analysis.clusters a) = differing).
  { rewrite (sumSizes_pixels _ Hsz). unfold differing, len. by rewrite Hperm. }
  assert (Hpos : ∀ c, c ∈ Analysis.clusters a → 0 ≤ Cluster.size c).
  { intros c Hc. rewrite Forall_forall in Hsz. rewrite (Hsz c Hc).
    unfold len. lia. }
  split_and!.
  - done.
  - unfold differing, len. rewrite <- Hperm. simpl. apply inj_le.
    apply length_bind_nonempty.
    eapply Forall_impl; [exact Hb|]. by intros c (_ & ? & _).
  - done.
  - unfold a, analyzeClusters, len. simpl. lia.
  - unfold a, analyzeClusters, len. simpl.
    pose proof (List.filter_length_le (significant options)
                  (scan this buffer width height).2). lia.
  - change (Analysis.significantPixels a)
      with (sumSizes (List.filter (significant options) (Analysis.clusters a))).
    destruct (sumSizes_filter_mono (λ _, false) (significant options)
                (Analysis.clusters a)) as [Hle _]; [done|done|].
    assert (E : List.filter (λ _ : Cluster.t, false) (Analysis.clusters a) = []).
    { clear. induction (Analysis.clusters a); [done|]. simpl. done. }
    rewrite E in Hle. exact Hle.
  - rewrite <- Hsum.
    change (Analysis.significantPixels a)
      with (sumSizes (List.filter (significant options) (Analysis.clusters a))).
    by apply sumSizes_filter_le.
Qed.

(** X7: no differing pixel, no cluster.  The analyzer returns an empty
    cluster list exactly when no position inside the image holds the
    marker, and then both significant counts are 0. *)
Theorem no_clusters_iff (options : Options.t) :
  let a := analyzeClusters this buffer width height options in
  (Analysis.clusters a = []
   ↔ ∀ p, inBounds width height p = true →
          _isDiffPixel buffer (slot width p) = false)
  ∧ (Analysis.clusters a = [] →
     Analysis.totalClusters a = 0
     ∧ Analysis.significantClusters a = 0
     ∧ Analysis.significantPixels a = 0).
Proof.
  intros a.
  destruct (scan_spec this buffer width height) as [_ Hcover].
  destruct (analyzeClusters_scanned this buffer width height options)
    as [[_ _ Hdiff _] Hb].
  change (scan this buffer width height).2 with (Analysis.clusters a)
    in Hcover.
  fold a in Hdiff, Hb. split; [split|].
  - intros Hnil p Hin. destruct (_isDiffPixel _ _) eqn:Hd; [|done].
    specialize (Hcover p Hin Hd). rewrite Hnil in Hcover.
    by apply elem_of_nil in Hcover.
  - intros Hnone. destruct (Analysis.clusters a) as [|c cs] eqn:Hcs; [done|].
    apply Forall_cons in Hb as [(_ & Hne & _) _].
    destruct (Cluster.pixels c) as [|p ps] eqn:Hpx; [done|].
    destruct (Hdiff p) as [Hin Hd].
    { unfold allPixels. csimpl. rewrite Hpx. by left. }
    by rewrite Hnone in Hd.
  - intros Hnil. unfold a, analyzeClusters in *. simpl in *. by rewrite Hnil.
Qed.

End ClusterComponents.

(** ** The order in which clusters are found *)

Section ScanOrder.
Import ClusterAnalyzer.
Context `{JSNumber}.
Variables (this : ClusterAnalyzer.t) (buffer : Buffer) (width height : Z).

Lemma seqZ_sorted (m n : Z) : StronglySorted Z.lt (seqZ m n).
Proof.
  unfold seqZ. apply (StronglySorted_fmap _ lt); [intros; lia|].
  generalize 0%nat as a. induction (Z.to_nat n) as [|k IH]; intros a; simpl.
  - constructor.
  - constructor; [apply IH|]. apply Forall_forall. intros x Hx.
    apply elem_of_seq in Hx. lia.
Qed.

Lemma sorted_bind {A B : Type} (R : relation B) (R' : relation A)
    (f : A → list B) (l : list A) :
  StronglySorted R' l →
  (∀ a, a ∈ l → StronglySorted R (f a)) →
  (∀ a b x y, R' a b → a ∈ l → b ∈ l → x ∈ f a → y ∈ f b → R x y) →
  StronglySorted R (l ≫= f).
Proof.
  induction 1 as [|a l Hl IH Ha]; intros Hf Hcross; csimpl; [constructor|].
  apply StronglySorted_app_2.
  - intros x y Hx (b & Hy & Hb)%list_elem_of_bind.
    rewrite Forall_forall in Ha.
    apply (Hcross a b); [by apply Ha|by left|by right|done|done].
  - apply Hf. by left.
  - apply IH.
    + intros b Hb. apply Hf. by right.
    + intros b c x y Hbc Hb Hc. apply Hcross; [done|by right|by right].
Qed.

(** The scan visits the positions in the order of their slots. *)
Lemma coords_sorted :
  StronglySorted (λ a b, slot width a < slot width b) (coords width height).
Proof.
  unfold coords. apply (sorted_bind _ Z.lt); [apply seqZ_sorted| |].
  - intros y _. apply (sorted_bind _ Z.lt); [apply seqZ_sorted| |].
    + intros x _. repeat constructor.
    + intros x x' p q Hlt _ _ ->%list_elem_of_singleton
             ->%list_elem_of_singleton.
      unfold slot. simpl. lia.
  - intros y y' p q Hlt _ _ (x & ->%list_elem_of_singleton & Hx)%list_elem_of_bind
           (x' & ->%list_elem_of_singleton & Hx')%list_elem_of_bind.
    apply elem_of_seqZ in Hx, Hx'. unfold slot. simpl. nia.
Qed.

Lemma scan_order_fold (todo seen : list Pixel) (st : gset Z * list Cluster.t) :
  coords width height = seen ++ todo →
  scanned this buffer width height st →
  inOrder buffer width seen st →
  inOrder buffer width (seen ++ todo)
          (fold_left (scanPixel this buffer width height) todo st).
Proof.
  revert seen st. induction todo as [|q todo IH]; intros seen st Hco Hsc Hord.
  { simpl. by rewrite app_nil_r. }
  assert (Hqin : inBounds width height q = true).
  { apply elem_of_coords. rewrite Hco. apply elem_of_app. right. by left. }
  destruct (scanPixel_spec this buffer width height st q Hqin Hsc)
    as (Hsc' & Hsub & Hqv).
  simpl. replace (seen ++ q :: todo) with ((seen ++ [q]) ++ todo)
    by by rewrite <- app_assoc.
  apply IH; [by rewrite <- app_assoc|done|].
  destruct Hord as (Hseen & Hheads & Hsorted).
  pose proof coords_sorted as Hcs. rewrite Hco in Hcs.
  assert (Hbefore : ∀ s, s ∈ seen → slot width s < slot width q).
  { intros s Hs. apply (StronglySorted_app_1_elem_of _ _ _ _ _ Hcs Hs).
    by left. }
  assert (Hafter : ∀ p, p ∈ todo → slot width q < slot width p).
  { apply StronglySorted_app_1_r, StronglySorted_cons in Hcs as [Hq _].
    by rewrite Forall_forall in Hq. }
  assert (Hweaken : Forall (λ c, ∃ s rest,
              Cluster.pixels c = s :: rest ∧ s ∈ seen ++ [q]
              ∧ ∀ p, p ∈ rest → slot width s < slot width p) st.2).
  { eapply Forall_impl; [exact Hheads|].
    intros c (s & rest & ? & ? & ?). exists s, rest.
    split_and!; [done| |done]. apply elem_of_app. by left. }
  assert (Hseen' : ∀ p, p ∈ seen ++ [q] →
            _isDiffPixel buffer (slot width p) = true →
            slot width p ∈ (scanPixel this buffer width height st q).1).
  { intros p [Hp | ->%list_elem_of_singleton]%elem_of_app Hd;
      [apply Hsub; by apply Hseen|by apply Hqv]. }
  split; [done|]. clear Hseen' Hsc' Hsub Hqv.
  destruct st as [visited clusters]. simpl in *. unfold scanPixel.
  destruct (_isDiffPixel buffer (slot width q)) eqn:Hd; simpl; [|done].
  destruct (bool_decide (slot width q ∈ visited)) eqn:Hv; simpl; [done|].
  assert (Hs : skips buffer visited (slot width q) = false).
  { unfold skips. by rewrite Hv, Hd. }
  pose proof (findCluster_fresh this buffer width height q.1 q.2 visited)
    as Heff.
  rewrite <- (surjective_pairing q) in Heff.
  destruct (Heff Hs Hqin) as (Hhead & _ & Hnd & _ & Hpx). clear Heff.
  destruct (_findCluster this buffer q.1 q.2 width height visited)
    as [visited' c]. simpl in *.
  destruct (Cluster.pixels c) as [|s rest] eqn:Hc; [done|].
  injection Hhead as ->.
  assert (Hrest : ∀ p, p ∈ rest → slot width q < slot width p).
  { intros p Hp. apply Hafter.
    destruct (Hpx p) as (Hpin & Hpd & Hpv); [by right|].
    apply elem_of_coords in Hpin. rewrite Hco in Hpin.
    apply elem_of_app in Hpin as [Hpin|[->|Hpin]%elem_of_cons]; [| |done].
    - exfalso. apply Hpv. by apply Hseen.
    - apply NoDup_cons in Hnd as [Hnd _]. done. }
  split.
  - apply Forall_app. split; [done|]. apply Forall_singleton.
    exists q, rest. split_and!; [done| |done].
    apply elem_of_app. right. by apply list_elem_of_singleton.
  - apply StronglySorted_app_2; [|done|repeat constructor].
    intros c1 c2 Hc1 ->%list_elem_of_singleton s1 s2 Hs1 Hs2.
    rewrite Hc in Hs2. injection Hs2 as <-.
    rewrite Forall_forall in Hheads.
    destruct (Hheads c1 Hc1) as (s & rest' & Hpx1 & Hsin & _).
    rewrite Hpx1 in Hs1. injection Hs1 as <-. by apply Hbefore.
Qed.

(** X8: clusters come in scan order.  The first pixel of a cluster is the
    earliest of its pixels in row-major order, and along the cluster list
    those first pixels come in row-major order too. *)
Theorem clusters_in_scan_order (options : Options.t) :
  let clusters :=
    Analysis.clusters (analyzeClusters this buffer width height options) in
  (∀ c, c ∈ clusters →
        ∃ s rest, Cluster.pixels c = s :: rest
                  ∧ ∀ p, p ∈ rest → slot width s < slot width p)
  ∧ (∀ i j ci cj si sj,
       (i < j)%nat →
       clusters !! i = Some ci → clusters !! j = Some cj →
       head (Cluster.pixels ci) = Some si →
       head (Cluster.pixels cj) = Some sj →
       slot width si < slot width sj).
Proof.
  intros clusters. subst clusters. unfold analyzeClusters. simpl.
  rewrite scan_coords.
  destruct (scan_order_fold (coords width height) [] (∅, []))
    as (_ & Hheads & Hsorted); [done|apply scanned_start| |].
  { split_and!; simpl; [|done|constructor].
    intros p Hp. by apply elem_of_nil in Hp. }
  simpl in Hheads, Hsorted. split.
  - intros c Hc. rewrite Forall_forall in Hheads.
    destruct (Hheads c Hc) as (s & rest & ? & _ & ?). by exists s, rest.
  - intros i j ci cj si sj Hij Hi Hj Hsi Hsj.
    rewrite <- (take_drop_middle _ _ _ Hj) in Hsorted, Hi.
    apply StronglySorted_app in Hsorted as (Hcross & _ & _).
    assert (Hlen : length (take j (fold_left
              (scanPixel this buffer width height) (coords width height)
              (∅, [])).2) = j).
    { apply length_take_le. apply lookup_lt_Some in Hj. lia. }
    rewrite lookup_app_l in Hi by lia.
    apply (Hcross ci cj); [by eapply list_elem_of_lookup_2|by left|done|done].
Qed.

End ScanOrder.

(** ** Instances on the sample mask *)

Lemma cluster_bounds_witness :
  ∃ c,
    ClusterAnalyzer.Analysis.clusters
      (ClusterAnalyzer.analyzeClusters Sample.analyzer Sample.mask 4 1 Options.empty)
    !! 1%nat = Some c
    ∧ ClusterAnalyzer.Bounds.maxX (ClusterAnalyzer.Cluster.bounds c) < 4
    ∧ ClusterAnalyzer.Bounds.maxY (ClusterAnalyzer.Cluster.bounds c) < 1.
Proof.
  eexists. split; [by vm_compute|].
  edestruct (cluster_bounds Sample.analyzer Sample.mask 4 1 Options.empty)
    as (_ & Hx & _ & Hy & _).
  { eapply (list_elem_of_lookup_2 _ 1). by vm_compute. }
  split; [exact Hx|exact Hy].
Defined.

Lemma cluster_connected_witness :
  ∃ c,
    ClusterAnalyzer.Analysis.clusters
      (ClusterAnalyzer.analyzeClusters Sample.analyzer Sample.mask 4 1 Options.empty)
    !! 1%nat = Some c
    ∧ linked (ClusterAnalyzer.Cluster.pixels c) (2, 0) (3, 0).
Proof.
  eexists. split; [by vm_compute|].
  apply (cluster_connected Sample.analyzer Sample.mask 4 1 Options.empty).
  - eapply (list_elem_of_lookup_2 _ 1). by vm_compute.
  - by left.
  - right. by left.
Defined.

(** ** What a comparison throws, and where *)

Section Failures.
Import ClusterAnalyzer.
Context `{Collaborators}.

(** The three ways in which a comparison throws. *)
Lemma compare_failure (this : ImageComparator.t) (actual expected : ImageInput)
    (options : Options.t) (log : list Call) (e : JSError.t) :
  let mergedOptions :=
    Options.spread (ImageComparator.this_options this) options in
  let absent :=
    ImageComparator.missing actual || ImageComparator.missing expected in
  ImageComparator.compare this actual expected options = (log, inl e) →
  (absent = true ∧ log = [] ∧ e = ValidationError requiredMessage)
  ∨ (absent = false ∧ log = [ProcessImages]
     ∧ ImageProcessor.processImages actual expected mergedOptions = inl e)
  ∨ (absent = false ∧ log = [ProcessImages; Pixelmatch]
     ∧ ∃ processed,
         ImageProcessor.processImages actual expected mergedOptions
         = inr processed
         ∧ pixelmatch
             (ImageData.data (Processed.actualImageData processed))
             (ImageData.data (Processed.expectedImageData processed))
             (replicate (Z.to_nat (Processed.width processed
                                   * Processed.height processed * 4)) 0)
             (Processed.width processed) (Processed.height processed)
             (matchOptions mergedOptions)
           = inl e).
Proof.
  intros mergedOptions absent.
  unfold ImageComparator.compare, ImageComparator._validateInputs.
  fold mergedOptions. fold absent. unfold requiredMessage.
  destruct absent; simpl.
  { intros [= <- <-]; by left. }
  destruct (ImageProcessor.processImages actual expected mergedOptions)
    as [e'|processed]; simpl.
  { intros [= <- <-]; right; by left. }
  fold (matchOptions mergedOptions).
  destruct (pixelmatch _ _ _ _ _ _) as [e'|[diffCount diffBuffer]] eqn:Hpm;
    simpl.
  - intros [= <- <-]. right. right. split_and!; [done..|].
    by exists processed.
  - destruct (diffCount =? 0); simpl; done.
Qed.

(** X9: where a comparison fails.  The comparator throws in exactly three
    ways: the validation error, before any stage is entered, when an input
    is missing; what [processImages] throws, with only that stage entered;
    and what [pixelmatch] throws on the processed images.  Once
    [pixelmatch] has returned nothing is thrown any more, so the analysis
    stage is never part of a failed comparison. *)
Theorem compare_throws (this : ImageComparator.t) (actual expected : ImageInput)
    (options : Options.t) (log : list Call) (e : JSError.t) :
  let mergedOptions :=
    Options.spread (ImageComparator.this_options this) options in
  let absent :=
    ImageComparator.missing actual || ImageComparator.missing expected in
  (ImageComparator.compare this actual expected options = (log, inl e)
   ↔ (absent = true ∧ log = [] ∧ e = ValidationError requiredMessage)
     ∨ (absent = false ∧ log = [ProcessImages]
        ∧ ImageProcessor.processImages actual expected mergedOptions = inl e)
     ∨ (absent = false ∧ log = [ProcessImages; Pixelmatch]
        ∧ ∃ processed,
            ImageProcessor.processImages actual expected mergedOptions
            = inr processed
            ∧ pixelmatch
                (ImageData.data (Processed.actualImageData processed))
                (ImageData.data (Processed.expectedImageData processed))
                (replicate (Z.to_nat (Processed.width processed
                                      * Processed.height processed * 4)) 0)
                (Processed.width processed) (Processed.height processed)
                (matchOptions mergedOptions)
              = inl e))
  ∧ (ImageComparator.compare this actual expected options = (log, inl e) →
     AnalyzeClusters ∉ log).
Proof.
  intros mergedOptions absent. split; [split; [apply compare_failure|]|].
  - unfold ImageComparator.compare, ImageComparator._validateInputs.
    fold mergedOptions. fold absent. unfold requiredMessage.
    destruct absent; simpl.
    { intros [(_ & -> & ->)|[(? & _)|(? & _)]]; done. }
    destruct (ImageProcessor.processImages actual expected mergedOptions)
      as [e'|processed]; simpl.
    { intros [(? & _)|[(_ & -> & [= ->])|(_ & _ & ? & ? & _)]]; done. }
    fold (matchOptions mergedOptions).
    destruct (pixelmatch _ _ _ _ _ _) as [e'|[diffCount diffBuffer]] eqn:Hpm;
      simpl.
    + intros [(? & _)|[(_ & _ & ?)|(_ & -> & p & [= <-] & Hp)]]; [done..|].
      pose proof (eq_trans (eq_sym Hp) Hpm) as [= ->]. done.
    + intros [(? & _)|[(_ & _ & ?)|(_ & _ & p & [= <-] & Hp)]]; [done..|].
      by pose proof (eq_trans (eq_sym Hp) Hpm).
  - intros Hc. apply compare_failure in Hc.
    destruct Hc as [(_ & -> & _)|[(_ & -> & _)|(_ & -> & _)]];
      rewrite ?elem_of_cons, elem_of_nil; naive_solver.
Qed.

(** X10: what the engine throws.  Whatever a comparison through an engine
    throws is a [ComparisonError]; its cause is the error of the stage that
    failed, its message that error's message after "Comparison failed: ",
    and the stages ran on the caller's options over the instance options
    over the defaults. *)
Theorem engine_compare_throws (instance : Options.t)
    (actual expected : ImageInput) (options : Options.t) (log : list Call)
    (err : JSError.t) :
  VisualComparisonEngine.compare (VisualComparisonEngine.new instance)
                                 actual expected options
  = (log, inl err) →
  let effective := Options.spread (Options.spread defaults instance) options in
  JSError.name err = "ComparisonError"
  ∧ ∃ cause,
      JSError.cause err = Some cause
      ∧ JSError.message err = "Comparison failed: " +:+ JSError.message cause
      ∧ ((log = [] ∧ cause = ValidationError requiredMessage)
         ∨ (log = [ProcessImages]
            ∧ ImageProcessor.processImages actual expected effective
              = inl cause)
         ∨ (log = [ProcessImages; Pixelmatch]
            ∧ ∃ processed,
                ImageProcessor.processImages actual expected effective
                = inr processed
                ∧ pixelmatch
                    (ImageData.data (Processed.actualImageData processed))
                    (ImageData.data (Processed.expectedImageData processed))
                    (replicate (Z.to_nat (Processed.width processed
                                          * Processed.height processed * 4)) 0)
                    (Processed.width processed) (Processed.height processed)
                    (matchOptions effective)
                  = inl cause)).
Proof.
  intros Hc effective. unfold VisualComparisonEngine.compare in Hc.
  destruct (ImageComparator.compare _ _ _ _) as [log' [cause|r]] eqn:Hcmp;
    [|done].
  injection Hc as -> <-. split; [done|]. exists cause.
  split; [done|]. split; [done|].
  apply compare_failure in Hcmp. rewrite engine_cascade in Hcmp.
  fold effective in Hcmp.
  destruct Hcmp as [(_ & ? & ?)|[(_ & ? & ?)|(_ & ? & ?)]]; eauto.
Qed.

Lemma batch_log (this : VisualComparisonEngine.t)
    (mergedOptions : Options.t) (pairs : list Pair.t)
    (log : list Call) (results : list BatchEntry) :
  (fold_left
     (λ '(log, results) pair,
        match ImageComparator.compare
                (VisualComparisonEngine.comparator this) (Pair.actual pair)
                (Pair.expected pair) mergedOptions with
        | (log', inr result) =>
            (log ++ log', results ++ [Compared (Pair.name pair) result])
        | (log', inl error) =>
            (log ++ log',
             results ++ [Failed (Pair.name pair) false (JSError.message error)])
        end)
     pairs (log, results)).1
  = log
    ++ (pairs ≫= λ pair,
          (ImageComparator.compare
             (VisualComparisonEngine.comparator this) (Pair.actual pair)
             (Pair.expected pair) mergedOptions).1).
Proof.
  revert log results. induction pairs as [|pair pairs IH]; intros log results.
  { simpl. by rewrite app_nil_r. }
  csimpl.
  destruct (ImageComparator.compare _ _ _ _) as [log' [error|result]];
    rewrite IH, <- app_assoc; done.
Qed.

(** X11: a batch is the single comparisons in a row.  The stages a batch
    runs are those of [compare] on each pair, in the order of the pairs; an
    entry holds the result [compare] returns for its pair; and where
    [compare] throws, the entry's [error] is the message of the error's
    cause, without the "Comparison failed: " in front. *)
Theorem batchCompare_sequential (this : VisualComparisonEngine.t)
    (imagePairs : list Pair.t) (options : Options.t) :
  let batch := VisualComparisonEngine.batchCompare this imagePairs options in
  let single pair :=
    VisualComparisonEngine.compare this (Pair.actual pair) (Pair.expected pair)
                                   options in
  batch.1 = imagePairs ≫= (λ pair, (single pair).1)
  ∧ ∀ i pair, imagePairs !! i = Some pair →
      match (single pair).2 with
      | inr result => batch.2 !! i = Some (Compared (Pair.name pair) result)
      | inl err =>
          ∃ cause,
            JSError.cause err = Some cause
            ∧ JSError.message err
              = "Comparison failed: " +:+ JSError.message cause
            ∧ batch.2 !! i
              = Some (Failed (Pair.name pair) false (JSError.message cause))
      end.
Proof.
  intros batch single. subst batch single.
  unfold VisualComparisonEngine.batchCompare, VisualComparisonEngine.compare.
  rewrite batch_log, batch_entries. simpl. split.
  - apply list_bind_ext; [|done]. intros pair.
    by destruct (ImageComparator.compare _ _ _ _) as [? [?|?]].
  - intros i pair Hi. rewrite list_lookup_fmap, Hi. simpl.
    destruct (ImageComparator.compare _ _ _ _) as [log [cause|r]]; simpl;
      [|done].
    by exists cause.
Qed.

End Failures.

(** ** The engine's options *)

Section Construction.
Context `{Collaborators}.

(** X12: what the constructor resolves.  The options of a new engine have
    all nine keys; a key the caller gave keeps the caller's value, whatever
    it is; the comparator, its processor and its analyzer are handed the
    same resolved options; and constructing an engine from resolved options
    gives the same engine again. *)
Theorem engine_new_resolved (options : Options.t) :
  let this := VisualComparisonEngine.new options in
  let resolved := VisualComparisonEngine.this_options this in
  (is_Some (Options.threshold resolved)
   ∧ is_Some (Options.includeAA resolved)
   ∧ is_Some (Options.alpha resolved)
   ∧ is_Some (Options.maxSide resolved)
   ∧ is_Some (Options.backgroundColor resolved)
   ∧ is_Some (Options.minClusterSize resolved)
   ∧ is_Some (Options.maxTotalDiffPixels resolved)
   ∧ is_Some (Options.maxSignificantClusters resolved)
   ∧ is_Some (Options.lineShiftThreshold resolved))
  ∧ Options.spread resolved options = resolved
  ∧ (ImageComparator.this_options (VisualComparisonEngine.comparator this)
     = resolved
     ∧ ImageProcessor.options
         (ImageComparator.processor (VisualComparisonEngine.comparator this))
       = resolved
     ∧ ClusterAnalyzer.options
         (ImageComparator.clusterAnalyzer
            (VisualComparisonEngine.comparator this))
       = resolved)
  ∧ VisualComparisonEngine.new resolved = this.
Proof.
  intros this resolved.
  assert (Hres : resolved = Options.spread defaults options)
    by apply constructor_options.
  assert (Hover : ∀ (A : Type) (x y : option A),
            Options.over (Options.over x y) y = Options.over x y).
  { intros A [x|] [y|]; reflexivity. }
  split; [|split; [|split]].
  - assert (Hsome : ∀ (A : Type) (d : A) (y : option A),
              is_Some (Options.over (Some d) y)).
    { intros A d [y|]; by eexists. }
    rewrite Hres. split_and!; apply Hsome.
  - rewrite Hres. unfold Options.spread. simpl. f_equal; apply Hover.
  - done.
  - unfold this, VisualComparisonEngine.new.
    change (Options.spread (VisualComparisonEngine.fallbacks resolved) resolved)
      with (VisualComparisonEngine.options (VisualComparisonEngine.new resolved)).
    change (Options.spread (VisualComparisonEngine.fallbacks options) options)
      with resolved.
    rewrite constructor_options, Hres. by rewrite spread_absorb.
Qed.

End Construction.

(** ** Comparing an image with itself *)

Section SelfComparison.
Import ClusterAnalyzer.
Context `{Collaborators}.

(** Inputs that convert to the same canvas are processed to the same
    image data. *)
Lemma processImages_same (actual expected : ImageInput) (options : Options.t)
    (processed : Processed.t) :
  ImageProcessor._toCanvas actual = ImageProcessor._toCanvas expected →
  ImageProcessor.processImages actual expected options = inr processed →
  Processed.actualImageData processed = Processed.expectedImageData processed.
Proof.
  intros Hsame Hp.
  apply processImages_returns in Hp
    as (actualCanvas & expectedCanvas & color & Ha & He & _ & ->).
  rewrite Hsame, He in Ha. by injection Ha as ->.
Qed.

(** X13: an image compared with itself passes.  With a diff provider that
    counts 0 on equal images, a comparison of two inputs that convert to
    the same canvas, if it returns, is [ok] with a count of 0 and no
    clusters, and the analyzer is not called. *)
Theorem self_comparison (this : ImageComparator.t)
    (actual expected : ImageInput) (options : Options.t) (log : list Call)
    (r : Result.t) :
  identicalMatch →
  ImageProcessor._toCanvas actual = ImageProcessor._toCanvas expected →
  ImageComparator.compare this actual expected options = (log, inr r) →
  Result.ok r = true
  ∧ Result.diffCount r = 0
  ∧ Details.clusters (Result.details r) = []
  ∧ log = [ProcessImages; Pixelmatch].
Proof.
  intros Hcontract Hsame Hc.
  apply compare_returns in Hc
    as (processed & diffCount & diffBuffer & Hp & Hpm & Hn & _ & Hcase).
  rewrite (processImages_same _ _ _ _ Hsame Hp) in Hpm.
  apply Hcontract in Hpm. subst diffCount.
  destruct Hcase as [(_ & -> & -> & ->)|(? & _)]; done.
Qed.

(** X14: a failed verdict names a cluster.  When a comparison returns
    [ok: false], the analyzer ran, some cluster of the result is no line
    shift and has at least [minClusterSize] pixels, and the significant
    pixels exceed [maxTotalDiffPixels] or the significant clusters exceed
    [maxSignificantClusters]. *)
Theorem failed_verdict (this : ImageComparator.t)
    (actual expected : ImageInput) (options : Options.t) (log : list Call)
    (r : Result.t) :
  ImageComparator.compare this actual expected options = (log, inr r) →
  Result.ok r = false →
  let mergedOptions :=
    Options.spread (ImageComparator.this_options this) options in
  log = [ProcessImages; Pixelmatch; AnalyzeClusters]
  ∧ Result.diffCount r ≠ 0
  ∧ (∃ c, c ∈ Details.clusters (Result.details r)
          ∧ Cluster.isLineShift c = false
          ∧ nge (ofZ (Cluster.size c))
                (getNum (Options.minClusterSize mergedOptions)) = true)
  ∧ ∃ analysis,
      Details.analysis (Result.details r) = Some analysis
      ∧ Analysis.significantPixels analysis ≠ 0
      ∧ (nle (ofZ (Analysis.significantPixels analysis))
             (getNum (Options.maxTotalDiffPixels mergedOptions)) = false
         ∨ nle (ofZ (Analysis.significantClusters analysis))
               (getNum (Options.maxSignificantClusters mergedOptions))
           = false).
Proof.
  intros Hc Hok mergedOptions.
  apply compare_returns in Hc
    as (processed & diffCount & diffBuffer & _ & _ & Hn & _ & Hcase).
  fold mergedOptions in Hcase.
  destruct Hcase as [(_ & _ & Htrue & _)|(Hnz & -> & Hv & Hd)]; [congruence|].
  rewrite Hok in Hv. symmetry in Hv.
  unfold ImageComparator._evaluateSignificance in Hv.
  apply orb_false_iff in Hv as [Hsp Hlim]. apply Z.eqb_neq in Hsp.
  apply andb_false_iff in Hlim.
  rewrite Hd, Hn. simpl. split_and!; [done|done| |].
  - unfold analyzeClusters in Hsp. simpl in Hsp.
    destruct (List.filter (significant mergedOptions)
                (scan (ImageComparator.clusterAnalyzer this) diffBuffer
                      (Processed.width processed)
                      (Processed.height processed)).2)
      as [|c l] eqn:Hf; [done|].
    assert (Hin : In c (List.filter (significant mergedOptions)
                (scan (ImageComparator.clusterAnalyzer this) diffBuffer
                      (Processed.width processed)
                      (Processed.height processed)).2))
      by (rewrite Hf; by left).
    apply filter_In in Hin as [Hin Hsig].
    unfold significant in Hsig. apply andb_true_iff in Hsig as [Hls Hge].
    apply negb_true_iff in Hls.
    exists c. split_and!; [|done|done]. by apply list_elem_of_In.
  - eexists. split; [done|]. split; [done|]. done.
Qed.

(** X15: the clusters account for every counted pixel.  With a diff
    provider whose count is the number of markers it wrote, the sizes of
    the clusters of a result add up to its [diffCount]; the count is at
    most the number of positions of the diff image; and the cluster list is
    empty exactly when the count is 0. *)
Theorem cluster_sizes_total (this : ImageComparator.t)
    (actual expected : ImageInput) (options : Options.t) (log : list Call)
    (r : Result.t) :
  countsMarkers →
  ImageComparator.compare this actual expected options = (log, inr r) →
  sumSizes (Details.clusters (Result.details r)) = Result.diffCount r
  ∧ 0 ≤ Result.diffCount r
    ≤ Z.max 0 (ImageData.width (Result.diffImageData r))
      * Z.max 0 (ImageData.height (Result.diffImageData r))
  ∧ (Details.clusters (Result.details r) = [] ↔ Result.diffCount r = 0).
Proof.
  intros Hcontract Hc.
  apply compare_returns in Hc
    as (processed & diffCount & diffBuffer & _ & Hpm & Hn & Himg & Hcase).
  apply Hcontract in Hpm. rewrite Hn, Himg. simpl.
  set (width := Processed.width processed) in *.
  set (height := Processed.height processed) in *.
  assert (Hbound : 0 ≤ diffCount ≤ Z.max 0 width * Z.max 0 height).
  { rewrite Hpm. unfold len, diffPixels. split; [lia|].
    etrans; [apply inj_le, length_filter|]. unfold coords.
    rewrite (length_bind_const _ (Z.to_nat width)).
    - rewrite length_seqZ. lia.
    - intros y. rewrite (length_bind_const _ 1%nat); [|done].
      rewrite length_seqZ. lia. }
  destruct Hcase as [(-> & _ & _ & ->)|(Hnz & _ & _ & ->)]; simpl.
  { split; [done|]. split; [lia|done]. }
  set (a := analyzeClusters (ImageComparator.clusterAnalyzer this) diffBuffer
              width height
              (Options.spread (ImageComparator.this_options this) options)).
  change (scan (ImageComparator.clusterAnalyzer this) diffBuffer width height).2
    with (Analysis.clusters a).
  assert (Hsum : sumSizes (Analysis.clusters a) = diffCount).
  { destruct (analyzeClusters_scanned (ImageComparator.clusterAnalyzer this)
                diffBuffer width height
                (Options.spread (ImageComparator.this_options this) options))
      as [_ Hb].
    rewrite sumSizes_pixels.
    - rewrite Hpm. unfold len. f_equal. apply Permutation_length.
      apply clusters_diffPixels.
    - eapply Forall_impl; [exact Hb|]. by intros c [? _]. }
  split; [done|]. split; [done|]. split; [|done].
  intros Hnil. rewrite Hnil in Hsum. by cbv in Hsum.
Qed.

End SelfComparison.

(** The stand-in diff provider counts 0 on equal images. *)
Lemma demo_identicalMatch : identicalMatch.
Proof.
  intros img output width height options diffCount diffBuffer.
  simpl. unfold Demo.demoMatch. destruct (negb _); [done|].
  intros [= <- _].
  set (out := mjoin _).
  assert (Hall : Forall (λ v, v = 255) out).
  { apply Forall_forall. intros v (l & Hv & Hl)%list_elem_of_join.
    apply list_elem_of_fmap in Hl as (p & -> & _).
    rewrite bool_decide_eq_true_2 in Hv by done.
    repeat (apply elem_of_cons in Hv as [->|Hv]; [done|]).
    by apply elem_of_nil in Hv. }
  assert (Hno : ∀ pos, ClusterAnalyzer._isDiffPixel out pos = false).
  { intros pos. unfold ClusterAnalyzer._isDiffPixel.
    apply andb_false_iff. left. apply andb_false_iff. right.
    unfold readByte. destruct (pos + 1 <? 0); [done|].
    destruct (out !! Z.to_nat (pos + 1)) as [v|] eqn:Hv; [|done].
    rewrite Forall_lookup in Hall. by rewrite (Hall _ _ Hv). }
  unfold ClusterAnalyzer.len, ClusterAnalyzer.diffPixels.
  clear Hall. clearbody out.
  induction (ClusterAnalyzer.coords width height) as [|p l IH]; [done|].
  rewrite filter_cons. case_decide as Hd; [|done].
  by rewrite Hno in Hd.
Qed.

(** ** Instances on the sample images *)

Lemma engine_compare_throws_witness :
  ∃ err,
    VisualComparisonEngine.compare Sample.engine Other Sample.white Options.empty
    = ([ProcessImages], inl err)
    ∧ JSError.name err = "ComparisonError".
Proof.
  eexists. split; [by vm_compute|].
  edestruct (engine_compare_throws Options.empty Other Sample.white
                                   Options.empty [ProcessImages])
    as [Hname _]; [by vm_compute|].
  exact Hname.
Defined.

Lemma self_comparison_witness :
  ∃ log r,
    ImageComparator.compare (VisualComparisonEngine.comparator Sample.engine)
                            Sample.white Sample.white Sample.override
    = (log, inr r)
    ∧ Result.ok r = true.
Proof.
  do 2 eexists. split; [by vm_compute|].
  edestruct (self_comparison
               (VisualComparisonEngine.comparator Sample.engine)
               Sample.white Sample.white Sample.override)
    as [Hok _]; [exact demo_identicalMatch|reflexivity|by vm_compute|].
  exact Hok.
Defined.

Lemma failed_verdict_witness :
  ∃ log r,
    ImageComparator.compare (VisualComparisonEngine.comparator Sample.strictEngine)
                            Sample.black Sample.white Sample.override
    = (log, inr r)
    ∧ log = [ProcessImages; Pixelmatch; AnalyzeClusters].
Proof.
  do 2 eexists. split; [by vm_compute|].
  edestruct (failed_verdict
               (VisualComparisonEngine.comparator Sample.strictEngine)
               Sample.black Sample.white Sample.override)
    as [Hlog _]; [by vm_compute|by vm_compute|].
  exact Hlog.
Defined.

Lemma cluster_sizes_total_witness :
  ∃ log r,
    ImageComparator.compare (VisualComparisonEngine.comparator Sample.strictEngine)
                            Sample.black Sample.white Sample.override
    = (log, inr r)
    ∧ sumSizes (Details.clusters (Result.details r)) = Result.diffCount r.
Proof.
  do 2 eexists. split; [by vm_compute|].
  edestruct (cluster_sizes_total
               (VisualComparisonEngine.comparator Sample.strictEngine)
               Sample.black Sample.white Sample.override)
    as [Hsum _]; [exact demo_countsMarkers|by vm_compute|].
  exact Hsum.
Defined.

(** ** The cluster search of the p5 comparison *)

Section RadiusOne.
Import ClusterAnalyzer.
Context `{JSNumber}.
Variables (buffer : Buffer) (width height : Z).

(** At radius 1 the centre is the only offset besides the eight, and the
    centre has just been visited. *)
Lemma radiusPushes_one (visited : gset Z) (p : Pixel) :
  slot width p ∈ visited →
  P5VisualCompare.radiusPushes width height 1 visited p
  = pushes width height visited p.
Proof.
  intros Hp. destruct p as [x y].
  unfold P5VisualCompare.radiusPushes, pushes, neighbours8.
  change (P5VisualCompare.offsets 1)
    with [(-1, -1); (0, -1); (1, -1); (-1, 0); (0, 0); (1, 0);
          (-1, 1); (0, 1); (1, 1)].
  change offsets8
    with [(-1, -1); (0, -1); (1, -1); (-1, 0); (1, 0);
          (-1, 1); (0, 1); (1, 1)].
  cbn [fmap list_fmap fst snd]. rewrite !Z.add_0_r, !filter_cons.
  rewrite (decide_False (P := inBounds width height (x, y) = true
                              ∧ slot width (x, y) ∉ visited)) by tauto.
  done.
Qed.

Lemma radiusFill_one (queue : list Pixel) (visited : gset Z)
    (clusterPixels : list Pixel) (size : Z) :
  P5VisualCompare.radiusFill buffer width height 1 queue visited
                             clusterPixels size
  = floodFill buffer width height queue visited clusterPixels size.
Proof.
  funelim (floodFill buffer width height queue visited clusterPixels size);
    simp radiusFill.
  - done.
  - rewrite Heq. simpl. done.
  - rewrite Heq. simpl. rewrite radiusPushes_one by set_solver. done.
Qed.

(** X16: the p5 comparison finds the engine's clusters.  At radius 1, the
    only radius [checkMatch] asks for, [findClusterSize] leaves the visited
    set and returns the size and pixels that [_findCluster] does on the
    same mask; and the line-shift flag is that of an analyzer whose
    [lineShiftThreshold] is the 0.8 written into [findClusterSize]. *)
Theorem findClusterSize_radius_one (this : ClusterAnalyzer.t)
    (startX startY : Z) (visited : gset Z) :
  let found :=
    P5VisualCompare.findClusterSize buffer startX startY width height 1
                                    visited in
  let r := _findCluster this buffer startX startY width height visited in
  found.1 = r.1
  ∧ ClusterInfo.size found.2 = Cluster.size r.2
  ∧ ClusterInfo.pixels found.2 = Cluster.pixels r.2
  ∧ (Options.lineShiftThreshold (ClusterAnalyzer.options this)
     = Some (ofQ 0.8) →
     found = (r.1, clusterInfo r.2)).
Proof.
  intros found r. subst found r.
  unfold P5VisualCompare.findClusterSize, _findCluster.
  rewrite radiusFill_one.
  destruct (floodFill buffer width height _ _ _ _)
    as [[visited' pixels'] size'].
  cbn [fst snd ClusterInfo.size ClusterInfo.pixels Cluster.size
       Cluster.pixels].
  split_and!; [done..|].
  intros Hth. unfold clusterInfo, _detectLineShift. simpl. rewrite Hth.
  simpl. do 2 f_equal.
  unfold len. destruct pixels' as [|p l]; [done|].
  replace (0 <? Z.of_nat (length (p :: l))) with true
    by (symmetry; apply Z.ltb_lt; simpl length; lia).
  replace (Z.of_nat (length (p :: l)) =? 0) with false
    by (symmetry; apply Z.eqb_neq; simpl length; lia).
  done.
Qed.

End RadiusOne.

(** ** The command line *)

Section CommandLine.
Context `{JSNumber}.
Variable parseFloat : string → num.

Lemma flagOf_flagText (flag : Cli.Flag) : Cli.flagOf (Cli.flagText flag) = Some flag.
Proof. by destruct flag. Qed.

Lemma flagOf_Some (arg : string) (flag : Cli.Flag) :
  Cli.flagOf arg = Some flag → arg = Cli.flagText flag.
Proof.
  unfold Cli.flagOf.
  repeat (destruct (String.eqb arg _) eqn:E;
          [apply String.eqb_eq in E as ->; by intros [= <-]|clear E]).
  done.
Qed.

Lemma textOf_assign (flag flag' : Cli.Flag) (value : option string)
    (config : Config.t) :
  flag ≠ Cli.Threshold →
  Cli.textOf flag (Cli.assign parseFloat flag' value config)
  = if decide (flag' = flag) then value else Cli.textOf flag config.
Proof. destruct flag, flag'; intros ?; by case_decide. Qed.

(** Where the text of a key comes from, from any point of the loop on. *)
Lemma parseLoop_text (flag : Cli.Flag) (n : nat) (args : list string)
    (config : Config.t) :
  flag ≠ Cli.Threshold →
  (length args ≤ n)%nat →
  Cli.textOf flag (Cli.parseLoop parseFloat args config)
  = Cli.textOf flag config
  ∨ ∃ i, args !! i = Some (Cli.flagText flag)
         ∧ args !! S i = Cli.textOf flag (Cli.parseLoop parseFloat args config).
Proof.
  intros Hflag. revert args config.
  induction n as [|n IH]; intros args config Hlen.
  { destruct args; [by left|simpl in Hlen; lia]. }
  destruct args as [|arg rest]; [by left|]. simpl in Hlen. simpl.
  destruct (Cli.flagOf arg) as [flag'|] eqn:Harg.
  - apply flagOf_Some in Harg as ->.
    destruct rest as [|value rest'].
    + rewrite textOf_assign by done. case_decide as Hf; [|by left].
      subst flag'. right. by exists 0%nat.
    + destruct (IH rest' (Cli.assign parseFloat flag' (Some value) config))
        as [Hkeep|(i & Hi & Hv)]; [simpl in Hlen; lia| |].
      * rewrite Hkeep, textOf_assign by done.
        case_decide as Hf; [|by left].
        subst flag'. right. by exists 0%nat.
      * right. by exists (S (S i)).
  - destruct (IH rest config) as [Hkeep|(i & Hi & Hv)]; [lia|by left|].
    right. by exists (S i).
Qed.

(** Where the threshold comes from. *)
Lemma parseLoop_threshold (n : nat) (args : list string) (config : Config.t) :
  (length args ≤ n)%nat →
  Config.threshold (Cli.parseLoop parseFloat args config)
  = Config.threshold config
  ∨ ∃ i, args !! i = Some "--threshold"
         ∧ Config.threshold (Cli.parseLoop parseFloat args config)
           = match args !! S i with
             | Some text => parseFloat text
             | None => nan
             end.
Proof.
  revert args config. induction n as [|n IH]; intros args config Hlen.
  { destruct args; [by left|simpl in Hlen; lia]. }
  destruct args as [|arg rest]; [by left|]. simpl in Hlen. simpl.
  destruct (Cli.flagOf arg) as [flag|] eqn:Harg.
  - apply flagOf_Some in Harg as ->.
    destruct rest as [|value rest'].
    + destruct flag; try by left. right. by exists 0%nat.
    + destruct (IH rest' (Cli.assign parseFloat flag (Some value) config))
        as [Hkeep|(i & Hi & Hv)]; [simpl in Hlen; lia| |].
      * rewrite Hkeep. destruct flag; try by left. right. by exists 0%nat.
      * right. by exists (S (S i)).
  - destruct (IH rest config) as [Hkeep|(i & Hi & Hv)]; [lia|by left|].
    right. by exists (S i).
Qed.

Lemma parseLoop_pairs (pairs : list (Cli.Flag * string)) (config : Config.t) :
  Cli.parseLoop parseFloat (Cli.pairsText pairs) config
  = fold_left (λ config '(flag, value),
                 Cli.assign parseFloat flag (Some value) config)
              pairs config.
Proof.
  revert config. induction pairs as [|[flag value] pairs IH]; intros config;
    [done|].
  unfold Cli.pairsText. csimpl. rewrite flagOf_flagText. apply IH.
Qed.

(** X17: what [parseArgs] reads.  A path or the format that [parseArgs]
    returns is the default (none; "json" for the format), or the argument
    right after an occurrence of the key's flag, or undefined when that
    flag is the last argument; so a flag that does not occur leaves the
    default.  The threshold is 0.1, or [parseFloat] of the argument after
    an occurrence of "--threshold", [NaN] when there is none.  On a command line of flag and value pairs, after any words
    that are no flags, the result is the defaults with the pairs assigned
    in order: a later pair overrides an earlier one, and a value is never
    read as a flag. *)
Theorem parseArgs_reads (args : list string) :
  (∀ flag, flag ≠ Cli.Threshold →
     Cli.textOf flag (Cli.parseArgs parseFloat args)
     = Cli.textOf flag Cli.initial
     ∨ ∃ i, args !! i = Some (Cli.flagText flag)
            ∧ args !! S i = Cli.textOf flag (Cli.parseArgs parseFloat args))
  ∧ (∀ flag, flag ≠ Cli.Threshold → Cli.flagText flag ∉ args →
       Cli.textOf flag (Cli.parseArgs parseFloat args)
       = Cli.textOf flag Cli.initial)
  ∧ (Config.threshold (Cli.parseArgs parseFloat args) = ofQ 0.1
     ∨ ∃ i, args !! i = Some "--threshold"
            ∧ Config.threshold (Cli.parseArgs parseFloat args)
              = match args !! S i with
                | Some text => parseFloat text
                | None => nan
                end)
  ∧ (∀ words pairs,
       Forall (λ word, Cli.flagOf word = None) words →
       args = words ++ Cli.pairsText pairs →
       Cli.parseArgs parseFloat args
       = fold_left (λ config '(flag, value),
                      Cli.assign parseFloat flag (Some value) config)
                   pairs Cli.initial).
Proof.
  split_and!.
  - intros flag Hflag. by apply (parseLoop_text flag (length args)).
  - intros flag Hflag Hno.
    destruct (parseLoop_text flag (length args) args Cli.initial Hflag)
      as [Hkeep|(i & Hi & _)]; [done|done|].
    exfalso. apply Hno. by eapply list_elem_of_lookup_2.
  - by apply (parseLoop_threshold (length args)).
  - intros words pairs Hwords ->. unfold Cli.parseArgs.
    generalize (Cli.initial (H := H)) as config.
    induction Hwords as [|word words Hword _ IH]; intros config.
    + apply parseLoop_pairs.
    + simpl. rewrite Hword. apply IH.
Qed.

End CommandLine.

(** ** What the analysis reads of the mask *)

Section Frame.
Import ClusterAnalyzer.
Context `{JSNumber}.
Variables (this : ClusterAnalyzer.t) (width height : Z).

Lemma floodFill_sameMask (buffer buffer' : Buffer) (queue : list Pixel)
    (visited : gset Z) (clusterPixels : list Pixel) (size : Z) :
  sameMask buffer buffer' width height →
  (∀ p, p ∈ queue → inBounds width height p = true) →
  floodFill buffer width height queue visited clusterPixels size
  = floodFill buffer' width height queue visited clusterPixels size.
Proof.
  funelim (floodFill buffer width height queue visited clusterPixels size);
    intros Hsame Hq; simp floodFill.
  - done.
  - assert (Hs : skips buffer' visited (slot width p) = true).
    { match goal with E : skips buffer _ _ = _ |- _ => rewrite <- E end.
      unfold skips. rewrite (Hsame p); [done|]. apply Hq. by left. }
    destruct (sumbool_of_bool (skips buffer' visited (slot width p)))
      as [E'|E']; [|congruence].
    simpl. apply H0; [done|]. intros q Hq'. apply Hq. by right.
  - assert (Hs : skips buffer' visited (slot width p) = false).
    { match goal with E : skips buffer _ _ = _ |- _ => rewrite <- E end.
      unfold skips. rewrite (Hsame p); [done|]. apply Hq. by left. }
    destruct (sumbool_of_bool (skips buffer' visited (slot width p)))
      as [E'|E']; [congruence|].
    simpl. apply H0; [done|].
    intros q [Hq'|Hq']%elem_of_app; [apply Hq; by right|].
    unfold pushes in Hq'. by apply list_elem_of_filter in Hq' as [[? _] _].
Qed.

Lemma countNeighbors_sameMask (buffer buffer' : Buffer) (p : Pixel) :
  sameMask buffer buffer' width height →
  countNeighbors buffer width height p = countNeighbors buffer' width height p.
Proof.
  intros Hsame. unfold countNeighbors. apply fold_left_pointwise.
  intros neighbors n. destruct (inBounds width height n) eqn:Hin; [|done].
  by rewrite (Hsame n Hin).
Qed.

Lemma detectLineShift_sameMask (buffer buffer' : Buffer)
    (clusterPixels : list Pixel) :
  sameMask buffer buffer' width height →
  _detectLineShift this clusterPixels buffer width height
  = _detectLineShift this clusterPixels buffer' width height.
Proof.
  intros Hsame. unfold _detectLineShift, countLinelike.
  destruct (len clusterPixels =? 0); [done|]. do 3 f_equal.
  apply fold_left_pointwise. intros n p.
  by rewrite (countNeighbors_sameMask _ _ _ Hsame).
Qed.

Lemma scanPixel_sameMask (buffer buffer' : Buffer)
    (st : gset Z * list Cluster.t) (p : Pixel) :
  sameMask buffer buffer' width height →
  inBounds width height p = true →
  scanPixel this buffer width height st p
  = scanPixel this buffer' width height st p.
Proof.
  intros Hsame Hin. unfold scanPixel, _findCluster. destruct st as [visited cs].
  rewrite (Hsame p Hin).
  destruct (_isDiffPixel buffer' (slot width p) && _); [|done].
  rewrite (floodFill_sameMask buffer buffer'); [|done|].
  - destruct (floodFill buffer' _ _ _ _ _ _) as [[v l] n].
    by rewrite (detectLineShift_sameMask _ _ _ Hsame).
  - intros q ->%list_elem_of_singleton. by destruct p.
Qed.

(** X18: the analysis reads the mask only through the marker test at the
    positions of the image.  Two buffers that mark the same positions
    inside the width and height, whatever their alpha bytes, their other
    colours and their bytes beyond the image, get the same analysis. *)
Theorem analyzeClusters_reads_markers (buffer buffer' : Buffer)
    (options : Options.t) :
  sameMask buffer buffer' width height →
  analyzeClusters this buffer width height options
  = analyzeClusters this buffer' width height options.
Proof.
  intros Hsame.
  assert (Hscan : scan this buffer width height
                  = scan this buffer' width height).
  { rewrite !scan_coords.
    assert (Hl : ∀ p, p ∈ coords width height →
              inBounds width height p = true).
    { intros p. apply elem_of_coords. }
    revert Hl. generalize (∅ : gset Z, [] : list Cluster.t) as st.
    induction (coords width height) as [|q l IH]; intros st Hl; [done|].
    simpl. rewrite (scanPixel_sameMask _ _ _ _ Hsame) by (apply Hl; by left).
    apply IH. intros p Hp. apply Hl. by right. }
  unfold analyzeClusters. by rewrite Hscan.
Qed.

(** X20: the line-shift test does not depend on the order of the pixels.
    Two lists that hold the same pixels, in any order, get the same
    line-like count and the same verdict. *)
Theorem detectLineShift_permutation (buffer : Buffer)
    (clusterPixels clusterPixels' : list Pixel) :
  clusterPixels ≡ₚ clusterPixels' →
  countLinelike buffer width height clusterPixels
  = countLinelike buffer width height clusterPixels'
  ∧ _detectLineShift this clusterPixels buffer width height
    = _detectLineShift this clusterPixels' buffer width height.
Proof.
  intros Hperm.
  assert (Hlen : len clusterPixels = len clusterPixels').
  { unfold len. by rewrite (Permutation_length Hperm). }
  assert (Hcount : countLinelike buffer width height clusterPixels
                   = countLinelike buffer width height clusterPixels').
  { rewrite !countLinelike_spec. unfold len. f_equal.
    apply Permutation_length. by rewrite Hperm. }
  split; [done|]. unfold _detectLineShift. by rewrite Hlen, Hcount.
Qed.

End Frame.

Lemma analyzeClusters_reads_markers_witness :
  ClusterAnalyzer.analyzeClusters Sample.analyzer Sample.mask 4 1 Options.empty
  = ClusterAnalyzer.analyzeClusters
      Sample.analyzer
      [255; 0; 0; 0;  9; 9; 9; 0;  255; 0; 0; 7;  255; 0; 0; 1;  255; 0; 0; 255]
      4 1 Options.empty.
Proof.
  apply analyzeClusters_reads_markers.
  intros [x y] Hin. unfold ClusterAnalyzer.inBounds in Hin. simpl in Hin.
  rewrite !andb_true_iff, !Z.leb_le, !Z.ltb_lt in Hin.
  assert (Hy : y = 0) by lia.
  assert (Hx : x = 0 ∨ x = 1 ∨ x = 2 ∨ x = 3) by lia.
  subst y. destruct Hx as [->|[->|[->| ->]]]; reflexivity.
Defined.

Lemma detectLineShift_permutation_witness :
  ClusterAnalyzer._detectLineShift Sample.analyzer [(2, 0); (3, 0)]
                                   Sample.mask 4 1
  = ClusterAnalyzer._detectLineShift Sample.analyzer [(3, 0); (2, 0)]
                                     Sample.mask 4 1.
Proof.
  apply (detectLineShift_permutation Sample.analyzer 4 1 Sample.mask).
  apply Permutation_swap.
Defined.

(** ** The background colour *)

Section Background.
Context `{Collaborators}.

(** X19: [processImages] needs a background colour.  Without the
    [backgroundColor] key it never returns, and when both inputs convert
    to canvases what it throws is the [TypeError] of reading [join] on
    [undefined]; a comparator whose merged options lack the key therefore
    returns from no comparison.  The options that a comparison through an
    engine works with always have the key. *)
Theorem background_required (actual expected : ImageInput)
    (options : Options.t) :
  (Options.backgroundColor options = None →
   (∀ processed,
      ImageProcessor.processImages actual expected options ≠ inr processed)
   ∧ (∀ actualCanvas expectedCanvas,
        ImageProcessor._toCanvas actual = inr actualCanvas →
        ImageProcessor._toCanvas expected = inr expectedCanvas →
        ∃ e, ImageProcessor.processImages actual expected options = inl e
             ∧ JSError.name e = "TypeError"))
  ∧ (∀ this log r,
       Options.backgroundColor
         (Options.spread (ImageComparator.this_options this) options) = None →
       ImageComparator.compare this actual expected options ≠ (log, inr r))
  ∧ (∀ instance,
       is_Some (Options.backgroundColor
                  (Options.spread (Options.spread defaults instance)
                                  options))).
Proof.
  assert (Hnever : ∀ a e o processed,
            Options.backgroundColor o = None →
            ImageProcessor.processImages a e o ≠ inr processed).
  { intros a e o processed Hbg Hp.
    apply processImages_returns in Hp as (? & ? & color & _ & _ & Hc & _).
    congruence. }
  split_and!.
  - intros Hbg. split; [intros processed; by apply Hnever|].
    intros actualCanvas expectedCanvas Ha He.
    unfold ImageProcessor.processImages. rewrite Ha, He. simpl.
    rewrite Hbg. simpl. by eexists.
  - intros this log r Hbg Hc.
    apply compare_returns in Hc as (processed & _ & _ & Hp & _).
    by apply Hnever in Hp.
  - intros instance. simpl.
    destruct (Options.backgroundColor options),
             (Options.backgroundColor instance); by eexists.
Qed.

End Background.
